(** * RufusClient: crawl controller and relevance engine

    A shallow embedding of [src/scraper.py] (class [RufusClient]) and the
    properties its design document states about it.

    Conventions of the embedding.
    - A Python [str] is a [string]; one [ascii] stands for one code point,
      so the embedding covers the code points U+0000..U+00FF.  The
      character classes below are the ones CPython assigns to these code
      points ([str.lower], [str.isspace], [str.isnumeric], and the [re]
      classes [\w] and [\s]).
    - [None] is [None]; a falsy [Optional[str]] is [None] or the empty
      string.
    - A Python [set] of strings is a [gset string].
    - The libraries the class calls (the web driver, BeautifulSoup,
      [urllib.parse], scikit-learn, nltk) are collaborators: they are the
      fields of [Env], and a call that raises is a field returning [None].
    - [self] is a [Session] record threaded through the methods.  Its
      [trace] field records, in order, what a run prints and which pages it
      asks the driver for.
    - A float that holds a count or a quotient of two counts is the exact
      rational; the Python value is the double nearest to it. *)

From Stdlib Require Import ZArith QArith String Ascii List Bool Lia.
From stdpp Require Import base gmap sets list strings.

Local Open Scope Z_scope.
Local Open Scope nat_scope.

#[local] Set Warnings "-clear-no-such-hyp".

(* ================================================================== *)
(** ** Python strings *)
(* ================================================================== *)

Module PyStr.

Definition code (c : ascii) : N := N_of_ascii c.

Definition between (lo hi n : N) : bool := ((lo <=? n) && (n <=? hi))%N.

(** [str.isspace] on one code point; the [re] class [\s] and
    [str.strip] use the same test. *)
Definition is_space (c : ascii) : bool :=
  let n := code c in
  between 9 13 n || between 28 32 n || (n =? 133)%N || (n =? 160)%N.

(** The [re] class [\w] for a [str] pattern: alphanumeric or underscore. *)
Definition is_word (c : ascii) : bool :=
  let n := code c in
  between 48 57 n || between 65 90 n || (n =? 95)%N || between 97 122 n
  || (n =? 170)%N || between 178 179 n || (n =? 181)%N
  || between 185 186 n || between 188 190 n
  || between 192 214 n || between 216 246 n || between 248 255 n.

(** [str.isnumeric] on one code point. *)
Definition is_numeric (c : ascii) : bool :=
  let n := code c in
  between 48 57 n || between 178 179 n || (n =? 185)%N || between 188 190 n.

(** [str.lower] on one code point. *)
Definition lower_char (c : ascii) : ascii :=
  let n := code c in
  if between 65 90 n || between 192 214 n || between 216 222 n
  then ascii_of_N (n + 32) else c.

Definition space : ascii := " "%char.

Fixpoint map_chars (f : ascii -> ascii) (s : string) : string :=
  match s with
  | EmptyString => EmptyString
  | String c r => String (f c) (map_chars f r)
  end.

Fixpoint all_chars (f : ascii -> bool) (s : string) : bool :=
  match s with
  | EmptyString => true
  | String c r => f c && all_chars f r
  end.

(** [s.lower()] *)
Definition lower (s : string) : string := map_chars lower_char s.

(** [s.isnumeric()]: false on the empty string. *)
Definition isnumeric (s : string) : bool :=
  negb (String.eqb s "") && all_chars is_numeric s.

(** [re.sub(r'[^\w\s]', ' ', s)] *)
Definition sub_char (c : ascii) : ascii :=
  if is_word c || is_space c then c else space.

Definition sub_special (s : string) : string := map_chars sub_char s.

(** [re.sub(r'\s+', ' ', s)]: every maximal run of white space becomes
    one blank.  [in_run] tells that the previous character was white
    space, whose blank has been written already. *)
Fixpoint sub_spaces_from (in_run : bool) (s : string) : string :=
  match s with
  | EmptyString => EmptyString
  | String c r =>
      if is_space c
      then if in_run then sub_spaces_from true r
           else String space (sub_spaces_from true r)
      else String c (sub_spaces_from false r)
  end.

Definition sub_spaces (s : string) : string := sub_spaces_from false s.

Fixpoint lstrip (s : string) : string :=
  match s with
  | EmptyString => EmptyString
  | String c r => if is_space c then lstrip r else s
  end.

Fixpoint rstrip (s : string) : string :=
  match s with
  | EmptyString => EmptyString
  | String c r =>
      let r' := rstrip r in
      if is_space c && String.eqb r' "" then EmptyString else String c r'
  end.

(** [s.strip()] *)
Definition strip (s : string) : string := rstrip (lstrip s).

(** [s.startswith(p)] *)
Definition startswith (s p : string) : bool := String.prefix p s.

(** [p in s] for two strings *)
Fixpoint contains (s p : string) : bool :=
  String.prefix p s
  || match s with
     | EmptyString => false
     | String _ r => contains r p
     end.

(** [not s] for a string *)
Definition falsy (s : string) : bool := String.eqb s "".

(** [not s] for an [Optional[str]] *)
Definition falsy_opt (s : option string) : bool :=
  match s with
  | None => true
  | Some s => falsy s
  end.

End PyStr.

(* ================================================================== *)
(** ** Text preprocessing *)
(* ================================================================== *)

(** [RufusClient.preprocess_text] *)
Definition preprocess_text (text : string) : string :=
  let text := PyStr.lower text in
  let text := PyStr.sub_special text in
  let text := PyStr.strip (PyStr.sub_spaces text) in
  text.

(* ================================================================== *)
(** ** Data model *)
(* ================================================================== *)

(** One entry of a result list: the dict with keys ['url'], ['title'],
    ['content'] and, once [process_results] has built it,
    ['relevance_score']. *)
Module Page.
Record t : Type := mk {
  url : string;
  title : string;
  content : list string;
  relevance_score : option Q
}.
End Page.

(** What the class reads from a parsed page: the title element's string
    when there is a title element, every element as its tag name and its
    stripped text ([get_text(strip=True)]) in document order, and the
    [href] of every anchor that has one. *)
Record DOM : Type := {
  dom_title : option string;
  dom_elements : list (string * string);
  dom_links : list string
}.

(** The libraries behind the class.  [None] is a raised exception. *)
Record Env : Type := {
  (** [urllib.parse.urljoin(base, url)] *)
  urljoin : option string -> string -> option string;
  (** [urllib.parse.urlparse(url)], as its [scheme] and [netloc] *)
  urlparse : string -> option (string * string);
  (** [driver.get(url)], then [page_source] and [current_url] *)
  driver_get : string -> option (string * string);
  (** [BeautifulSoup(html, 'lxml')] *)
  BeautifulSoup : string -> option DOM;
  (** [fit_transform([prompt, text])] and the cosine of its two rows *)
  tfidf_cosine : string -> string -> option Q;
  (** [nltk.tokenize.word_tokenize] *)
  word_tokenize : string -> list string;
  (** [set(stopwords.words('english'))] *)
  stop_words : gset string
}.

(** What a run does that a caller can observe besides the returned list. *)
Inductive Event : Type :=
  | Enter (url : string) (depth : Z)
      (** [scrape(url, _, depth)] is entered *)
  | Skipping (url : option string)
      (** [print("Skipping invalid URL: ...")] *)
  | Scraping (url : string)
      (** [print("Scraping URL: ...")] *)
  | Get (url : string) (visited : gset string)
      (** [driver.get(url)] is called while [visited_urls] is [visited] *)
  | ErrorAccessing (url : string)
      (** [print("Error accessing ...")] *)
  | ErrorExtracting.
      (** [print("Error extracting data: ...")] *)

(** The mutable fields of a [RufusClient], and what it has done so far. *)
Record Session : Type := {
  visited_urls : gset string;
  base_url : option string;
  trace : list Event
}.

(** [RufusClient.__init__] *)
Definition init : Session :=
  {| visited_urls := ∅; base_url := None; trace := [] |}.


Definition emit (e : Event) (st : Session) : Session :=
  {| visited_urls := visited_urls st;
     base_url := base_url st;
     trace := trace st ++ [e] |}.

Definition set_base_url (url : string) (st : Session) : Session :=
  {| visited_urls := visited_urls st;
     base_url := Some url;
     trace := trace st |}.

Definition add_visited (url : string) (st : Session) : Session :=
  {| visited_urls := {[ url ]} ∪ visited_urls st;
     base_url := base_url st;
     trace := trace st |}.

(** The URLs the driver was asked for, in order. *)
Fixpoint rendered (tr : list Event) : list string :=
  match tr with
  | [] => []
  | Get url _ :: tr => url :: rendered tr
  | _ :: tr => rendered tr
  end.

(** The invocations of [scrape], in order. *)
Fixpoint entered (tr : list Event) : list (string * Z) :=
  match tr with
  | [] => []
  | Enter url depth :: tr => (url, depth) :: entered tr
  | _ :: tr => entered tr
  end.

(* ================================================================== *)
(** ** The methods of [RufusClient] *)
(* ================================================================== *)

Section Client.

Context (E : Env).

(** [RufusClient.normalize_url] *)
Definition normalize_url (base : option string) (url : string)
  : option string :=
  if PyStr.falsy url then None
  else if negb (PyStr.startswith url "http://"
                || PyStr.startswith url "https://")
       then urljoin E base url
       else Some url.

(** [RufusClient.is_valid_url] *)
Definition is_valid_url (url : string) : bool :=
  match urlparse E url with
  | Some (scheme, netloc) =>
      negb (PyStr.falsy scheme) && negb (PyStr.falsy netloc)
  | None => false
  end.

(** [RufusClient.is_same_domain].  While [base_url] is [None],
    [urlparse] answers with [bytes], which no [str] equals. *)
Definition is_same_domain (base : option string) (url : string) : bool :=
  match urlparse E url, base with
  | Some (_, netloc), Some b =>
      match urlparse E b with
      | Some (_, base_netloc) => String.eqb netloc base_netloc
      | None => false
      end
  | _, _ => false
  end.

(** [RufusClient.extract_keywords] *)
Definition is_keyword (word : string) : bool :=
  negb (bool_decide (word ∈ stop_words E))
  && (2 <? String.length word)
  && negb (PyStr.isnumeric word).

Definition extract_keywords (text : string) : gset string :=
  let tokens := word_tokenize E (PyStr.lower text) in
  list_to_set (List.filter is_keyword tokens).

(** The test inside the two loops of the third method. *)
Definition partial_match (p_word t_word : string) : bool :=
  (3 <? String.length p_word) && PyStr.contains t_word p_word
  || (3 <? String.length t_word) && PyStr.contains p_word t_word.

(** [RufusClient.is_relevant_to_prompt] *)
Definition is_relevant_to_prompt (text prompt : string) (threshold : Q)
  : bool :=
  if PyStr.falsy text || PyStr.falsy prompt then false
  else
    let text := preprocess_text text in
    let prompt := preprocess_text prompt in
    if PyStr.falsy text || PyStr.falsy prompt then false
    else
      if match tfidf_cosine E prompt text with
         | Some similarity => Qle_bool threshold similarity
         | None => false
         end
      then true
      else
        let prompt_keywords := extract_keywords prompt in
        let text_keywords := extract_keywords text in
        let keyword_overlap := size (prompt_keywords ∩ text_keywords) in
        if 0 <? keyword_overlap then true
        else
          existsb
            (fun p_word =>
               existsb (fun t_word => partial_match p_word t_word)
                       (elements text_keywords))
            (elements prompt_keywords).

(** The default of the [threshold] argument. *)
Definition default_threshold : Q := 1 # 10.

(** The inner loop of [process_results] over one page's content:
    the kept blocks, [relevant_content_count], [total_content_score]. *)
Definition score_block (prompt : string)
    (acc : list string * nat * nat) (content : string)
  : list string * nat * nat :=
  let '(kept, relevant_content_count, total_content_score) := acc in
  if is_relevant_to_prompt content prompt default_threshold
  then (kept ++ [content], S relevant_content_count,
        S total_content_score)
  else acc.

(** The body of the outer loop. *)
Definition process_result (prompt : string)
    (processed_results : list Page.t) (result : Page.t) : list Page.t :=
  let '(kept, relevant_content_count, total_content_score) :=
    fold_left (score_block prompt) (Page.content result) ([], 0, 0) in
  if 0 <? relevant_content_count
  then processed_results ++
       [ Page.mk (Page.url result) (Page.title result) kept
           (Some (Z.of_nat total_content_score
                  # Pos.of_nat (List.length (Page.content result)))) ]
  else processed_results.

(** [RufusClient.process_results] *)
Definition process_results (results : list Page.t)
    (prompt : option string) : list Page.t :=
  match prompt with
  | None => results
  | Some p =>
      if PyStr.falsy p then results
      else fold_left (process_result p) results []
  end.

(** [content_elements] in [extract_data] *)
Definition content_elements : list (string * list string) :=
  [ ("text"%string, ["p"; "div"; "section"; "article"]%string);
    ("headings"%string, ["h1"; "h2"; "h3"; "h4"; "h5"; "h6"]%string);
    ("lists"%string, ["ul"; "ol"]%string);
    ("tables"%string, ["table"]%string) ].

(** [soup.find_all(tag)], each element as its stripped text *)
Definition find_all (soup : DOM) (tag : string) : list string :=
  List.map snd
    (List.filter (fun e => String.eqb (fst e) tag) (dom_elements soup)).

Definition collect_element (page_content : list string) (text : string)
  : list string :=
  if negb (PyStr.falsy text) && (20 <? String.length text)
  then page_content ++ [text]
  else page_content.

Definition collect_tag (soup : DOM) (page_content : list string)
    (tag : string) : list string :=
  fold_left collect_element (find_all soup tag) page_content.

Definition collect_category (soup : DOM) (page_content : list string)
    (entry : string * list string) : list string :=
  fold_left (collect_tag soup) (snd entry) page_content.

(** The content loop of [extract_data]. *)
Definition page_content (soup : DOM) : list string :=
  fold_left (collect_category soup) content_elements [].

(** The result of a call: [None] when the recursion budget of the
    embedding ran out, which [scrape_returns] rules out. *)
Definition Outcome : Type := option (list Page.t * Session).

(** The link loop of [extract_data]; [scrape_rec] is [self.scrape]. *)
Fixpoint follow_links
    (scrape_rec : string -> option string -> Z -> Session -> Outcome)
    (links : list string) (prompt : option string) (depth : Z)
    (data : list Page.t) (st : Session) : Outcome :=
  match links with
  | [] => Some (data, st)
  | href :: links =>
      match normalize_url (base_url st) href with
      | Some next_url =>
          if negb (PyStr.falsy next_url)
             && is_same_domain (base_url st) next_url
          then
            match scrape_rec next_url prompt (depth - 1)%Z st with
            | Some (nested_results, st) =>
                follow_links scrape_rec links prompt depth
                  (data ++ nested_results) st
            | None => None
            end
          else follow_links scrape_rec links prompt depth data st
      | None => follow_links scrape_rec links prompt depth data st
      end
  end.

(** [RufusClient.extract_data], with [self.scrape] as [scrape_rec]. *)
Definition extract_data_with
    (scrape_rec : string -> option string -> Z -> Session -> Outcome)
    (html current_url : string) (prompt : option string) (depth : Z)
    (st : Session) : Outcome :=
  match BeautifulSoup E html with
  | None => Some ([], emit ErrorExtracting st)
  | Some soup =>
      let title :=
        match dom_title soup with Some s => s | None => ""%string end in
      let result :=
        Page.mk current_url title (page_content soup) None in
      let data := [result] in
      if (0 <? depth)%Z
      then follow_links scrape_rec (dom_links soup) prompt depth data st
      else Some (data, st)
  end.

(** [RufusClient.scrape]; [scrape_rec] is the [self.scrape] that
    [extract_data] calls. *)
Definition scrape_body
    (scrape_rec : string -> option string -> Z -> Session -> Outcome)
    (url : string) (prompt : option string) (depth : Z) (st : Session)
  : Outcome :=
  let st := emit (Enter url depth) st in
  let st :=
    if PyStr.falsy_opt (base_url st) then set_base_url url st
    else st in
  match normalize_url (base_url st) url with
  | None => Some ([], emit (Skipping None) st)
  | Some url =>
      if PyStr.falsy url || negb (is_valid_url url)
      then Some ([], emit (Skipping (Some url)) st)
      else if bool_decide (url ∈ visited_urls st) || (depth <? 0)%Z
      then Some ([], st)
      else
        let st := add_visited url st in
        let st := emit (Scraping url) st in
        let st := emit (Get url (visited_urls st)) st in
        match driver_get E url with
        | None => Some ([], emit (ErrorAccessing url) st)
        | Some (html, current_url) =>
            match extract_data_with scrape_rec
                    html current_url prompt depth st with
            | Some (results, st) =>
                if negb (PyStr.falsy_opt prompt)
                then Some (process_results results prompt, st)
                else Some (results, st)
            | None => None
            end
        end
  end.

(** The two methods call each other; the embedding ties the knot by
    recursion on a budget of nested calls. *)
Fixpoint scrape_fuel (fuel : nat)
  : string -> option string -> Z -> Session -> Outcome :=
  match fuel with
  | O => fun _ _ _ _ => None
  | S fuel => scrape_body (scrape_fuel fuel)
  end.

(** [scrape(url, prompt, depth)]: a call at depth [d] nests at most
    [d] further calls. *)
Definition scrape (url : string) (prompt : option string) (depth : Z)
    (st : Session) : Outcome :=
  scrape_fuel (S (Z.to_nat depth)) url prompt depth st.

(** [extract_data(html, current_url, prompt, depth)] *)
Definition extract_data (html current_url : string)
    (prompt : option string) (depth : Z) (st : Session) : Outcome :=
  extract_data_with (scrape_fuel (Z.to_nat depth))
    html current_url prompt depth st.

End Client.

(* ================================================================== *)
(** ** The design document's vocabulary *)
(* ================================================================== *)

(** What the design document says in its own words, for comparison with
    the methods above. *)
Module Spec.

(** [p] occurs in [t] as a contiguous piece. *)
Definition is_substring (p t : string) : Prop :=
  exists a b : string, t = String.append a (String.append p b).

(** A keyword of a preprocessed string: a token that is no stop word,
    is longer than two characters and is not purely numeric. *)
Definition keyword_of (E : Env) (s w : string) : Prop :=
  (w ∈ word_tokenize E s)
  /\ (w ∉ stop_words E)
  /\ 2 < String.length w
  /\ PyStr.isnumeric w = false.

(** Statistical tier: the similarity of the two preprocessed strings
    is computed and reaches the threshold. *)
Definition tier1 (E : Env) (text prompt : string) (threshold : Q) : Prop :=
  exists similarity : Q,
    tfidf_cosine E prompt text = Some similarity
    /\ (threshold <= similarity)%Q.

(** Keyword-overlap tier. *)
Definition tier2 (E : Env) (text prompt : string) : Prop :=
  exists w : string, keyword_of E prompt w /\ keyword_of E text w.

(** Partial-match tier. *)
Definition tier3 (E : Env) (text prompt : string) : Prop :=
  exists p t : string,
    keyword_of E prompt p /\ keyword_of E text t
    /\ ((3 < String.length p /\ is_substring p t)
        \/ (3 < String.length t /\ is_substring t p)).

(** The Result Processor on one page: the relevant blocks in their
    order, scored by their share of the original blocks; no page when
    no block is relevant. *)
Definition filter_page (relevant : string -> bool) (page : Page.t)
  : option Page.t :=
  let kept := List.filter relevant (Page.content page) in
  match kept with
  | [] => None
  | _ :: _ =>
      Some (Page.mk (Page.url page) (Page.title page) kept
              (Some (Z.of_nat (List.length kept)
                     # Pos.of_nat (List.length (Page.content page)))))
  end.

(** The tags of the four category groups, in the order they are read. *)
Definition content_tags : list string :=
  [ "p"; "div"; "section"; "article";
    "h1"; "h2"; "h3"; "h4"; "h5"; "h6";
    "ul"; "ol"; "table" ]%string.

(** The Content Extractor's blocks: for every tag, the texts longer
    than 20 characters. *)
Definition content (soup : DOM) : list string :=
  flat_map
    (fun tag =>
       List.filter (fun text => 20 <? String.length text)
                   (find_all soup tag))
    content_tags.

(** A scheme as RFC 3986 writes it: a letter, then letters, digits,
    [+], [-] or [.], up to a colon. *)
Definition is_alpha (c : ascii) : bool :=
  let n := PyStr.code c in
  PyStr.between 65 90 n || PyStr.between 97 122 n.

Definition is_scheme_char (c : ascii) : bool :=
  let n := PyStr.code c in
  is_alpha c || PyStr.between 48 57 n
  || (n =? 43)%N || (n =? 45)%N || (n =? 46)%N.

Fixpoint scheme_rest (s : string) : bool :=
  match s with
  | EmptyString => false
  | String c r =>
      if (PyStr.code c =? 58)%N then true
      else is_scheme_char c && scheme_rest r
  end.

Definition has_scheme (url : string) : bool :=
  match url with
  | EmptyString => false
  | String c r => is_alpha c && scheme_rest r
  end.

(** [normalize(url, base)] as the design document states it, with
    [resolve] the relative-URL resolution. *)
Definition normalize (resolve : option string -> string -> option string)
    (base : option string) (url : string) : option string :=
  if PyStr.falsy url then None
  else if has_scheme url then Some url
  else resolve base url.





(** The invocations of one call of [scrape] at budget [d], in order:
    the call itself, then those of the calls it makes for links, each
    at budget [d - 1]. *)
#[warnings="-register-all"]
Inductive invocation : Z -> list (string * Z) -> Prop :=
  | invocation_intro (url : string) (d : Z)
      (nested : list (list (string * Z))) :
      Forall (invocation (d - 1)%Z) nested ->
      invocation d ((url, d) :: concat nested).

End Spec.

(** A session's calls of [scrape], one after the other. *)
Fixpoint run_calls (E : Env) (calls : list (string * option string * Z))
    (st : Session) : Session :=
  match calls with
  | [] => st
  | (url, prompt, depth) :: calls =>
      match scrape E url prompt depth st with
      | Some (_, st) => run_calls E calls st
      | None => st
      end
  end.

(** The events of [tr'] after those of [tr]. *)
Definition new_events (tr tr' : list Event) : list Event :=
  drop (List.length tr) tr'.

(* ================================================================== *)
(** ** A small site *)
(* ================================================================== *)

(** Two pages that link to each other, with collaborators that answer
    on the strings that occur there. *)
Module Demo.

Local Open Scope string_scope.

Fixpoint assoc {A : Type} (tbl : list (string * A)) (k : string)
  : option A :=
  match tbl with
  | [] => None
  | (k', v) :: tbl => if String.eqb k k' then Some v else assoc tbl k
  end.

Definition seed : string := "https://site.test/".
Definition about : string := "https://site.test/a".

Definition seed_dom : DOM :=
  {| dom_title := Some "Home";
     dom_elements := [("p", "Reports about data analytics and insights.");
                      ("p", "Opening hours and directions.")];
     dom_links := ["/a"] |}.

Definition about_dom : DOM :=
  {| dom_title := Some "About";
     dom_elements := [("p", "Our analytics team writes weekly.");
                      ("p", "Contact the office by telephone.")];
     dom_links := ["/"] |}.

(** [urljoin] on the pairs that occur; elsewhere the reference itself,
    as for a reference in another scheme. *)
Definition site_urljoin (base : option string) (url : string)
  : option string :=
  match base with
  | None => Some url
  | Some b =>
      match assoc [ ("https://site.test/|/a", about);
                    ("https://site.test/|/", seed);
                    ("https://lifesight.io|/page",
                     "https://lifesight.io/page");
                    ("https://lifesight.io|HTTPS://Example.com/",
                     "https://Example.com/") ]
                  (b ++ "|" ++ url) with
      | Some r => Some r
      | None => Some url
      end
  end.

(** [urlparse] on the two pages; the other strings that reach it here
    have neither scheme nor host. *)
Definition site_urlparse (url : string) : option (string * string) :=
  match assoc [ (seed, ("https", "site.test"));
                (about, ("https", "site.test")) ] url with
  | Some r => Some r
  | None => Some ("", "")
  end.

(** The driver: the two pages load without a redirect, nothing else
    loads. *)
Definition site_driver_get (url : string) : option (string * string) :=
  assoc [ (seed, ("<home>", seed)); (about, ("<about>", about)) ] url.

(** The parser on the two page sources. *)
Definition site_BeautifulSoup (html : string) : option DOM :=
  assoc [ ("<home>", seed_dom); ("<about>", about_dom) ] html.

(** A stand-in for the vectorizer: a positive cosine exactly when the
    text contains the prompt. *)
Definition site_tfidf_cosine (prompt text : string) : option Q :=
  if PyStr.contains text prompt then Some (1 # 3) else Some 0%Q.

(** Tokens of a preprocessed string: its pieces between blanks. *)
Fixpoint split_blank (word : string) (s : string) : list string :=
  match s with
  | EmptyString => if PyStr.falsy word then [] else [word]
  | String c r =>
      if Ascii.eqb c PyStr.space
      then if PyStr.falsy word then split_blank "" r
           else word :: split_blank "" r
      else split_blank (word ++ String c "") r
  end.

Definition site : Env :=
  {| urljoin := site_urljoin;
     urlparse := site_urlparse;
     driver_get := site_driver_get;
     BeautifulSoup := site_BeautifulSoup;
     tfidf_cosine := site_tfidf_cosine;
     word_tokenize := split_blank "";
     stop_words := list_to_set ["the"; "and"; "our"; "by"; "about"] |}.


(** A page with a text of 20 characters and one of 21. *)
Definition boundary_dom : DOM :=
  {| dom_title := None;
     dom_elements := [ ("p", "12345678901234567890");
                       ("p", "123456789012345678901") ];
     dom_links := [] |}.

End Demo.

(* ================================================================== *)
(** ** Notions the statements and proofs use *)
(* ================================================================== *)

(** Strings in the form [preprocess_text] produces. *)
Module PyStrNorm.
Import PyStr.

(** A character that lowering and the first substitution leave alone. *)
Definition settled (c : ascii) : bool :=
  Ascii.eqb (lower_char c) c && Ascii.eqb (sub_char c) c.

(** No white space but single blanks; [in_run] as in
    [sub_spaces_from]. *)
Fixpoint tidy (in_run : bool) (s : string) : bool :=
  match s with
  | EmptyString => true
  | String c r =>
      if is_space c
      then negb in_run && Ascii.eqb c space && tidy true r
      else tidy false r
  end.

(** No white space in front. *)
Definition no_lead (s : string) : bool :=
  match s with
  | EmptyString => true
  | String c _ => negb (is_space c)
  end.

End PyStrNorm.

(** [is_relevant_to_prompt(content, prompt)] as [process_results]
    calls it. *)
Definition relevant (E : Env) (prompt : string) (content : string) : bool :=
  is_relevant_to_prompt E content prompt default_threshold.

(** [len(text) > 20] *)
Definition long_enough (text : string) : bool := 20 <? String.length text.

(** The session once [scrape] has fixed the base URL. *)
Definition enter (url : string) (depth : Z) (st : Session) : Session :=
  let st := emit (Enter url depth) st in
  if PyStr.falsy_opt (base_url st) then set_base_url url st else st.

(** The session once [scrape] has marked [url] and asked the driver. *)
Definition mark (url : string) (st : Session) : Session :=
  let st := add_visited url st in
  let st := emit (Scraping url) st in
  emit (Get url (visited_urls st)) st.

(** The base URL in force during [scrape(url, ...)] called on [st]. *)
Definition base_for (st : Session) (url : string) : option string :=
  if PyStr.falsy_opt (base_url st) then Some url else base_url st.

(** The record [extract_data] builds for the page itself. *)
Definition own_page (current_url : string) (soup : DOM) : Page.t :=
  Page.mk current_url
    (match dom_title soup with Some s => s | None => ""%string end)
    (page_content soup) None.

(** What [scrape] does with the list [extract_data] returned. *)
Definition filtered (E : Env) (prompt : option string)
    (results : list Page.t) : list Page.t :=
  if negb (PyStr.falsy_opt prompt) then process_results E results prompt
  else results.

Section Cases.

Context (E : Env).

(** The ways through one call of [scrape]. *)
Inductive scrape_case (fuel : nat) (url : string) (prompt : option string)
    (depth : Z) (st : Session) : list Page.t -> Session -> Prop :=
  | case_unresolved :
      normalize_url E (base_for st url) url = None ->
      scrape_case fuel url prompt depth st []
        (emit (Skipping None) (enter url depth st))
  | case_invalid (u : string) :
      normalize_url E (base_for st url) url = Some u ->
      u = ""%string \/ is_valid_url E u = false ->
      scrape_case fuel url prompt depth st []
        (emit (Skipping (Some u)) (enter url depth st))
  | case_stop (u : string) :
      normalize_url E (base_for st url) url = Some u ->
      u <> ""%string ->
      is_valid_url E u = true ->
      u ∈ visited_urls st \/ (depth < 0)%Z ->
      scrape_case fuel url prompt depth st [] (enter url depth st)
  | case_error (u : string) :
      normalize_url E (base_for st url) url = Some u ->
      u <> ""%string ->
      is_valid_url E u = true ->
      u ∉ visited_urls st -> (0 <= depth)%Z ->
      driver_get E u = None ->
      scrape_case fuel url prompt depth st []
        (emit (ErrorAccessing u) (mark u (enter url depth st)))
  | case_page (u html current_url : string) (results : list Page.t)
      (st' : Session) :
      normalize_url E (base_for st url) url = Some u ->
      u <> ""%string ->
      is_valid_url E u = true ->
      u ∉ visited_urls st -> (0 <= depth)%Z ->
      driver_get E u = Some (html, current_url) ->
      extract_data_with E (scrape_fuel E fuel) html current_url prompt
        depth (mark u (enter url depth st)) = Some (results, st') ->
      scrape_case fuel url prompt depth st (filtered E prompt results) st'.

(** The ways through [extract_data]. *)
Inductive extract_case
    (scrape_rec : string -> option string -> Z -> Session -> Outcome)
    (html current_url : string) (prompt : option string) (depth : Z)
    (st : Session) : list Page.t -> Session -> Prop :=
  | case_unparsed :
      BeautifulSoup E html = None ->
      extract_case scrape_rec html current_url prompt depth st []
        (emit ErrorExtracting st)
  | case_leaf (soup : DOM) :
      BeautifulSoup E html = Some soup -> (depth <= 0)%Z ->
      extract_case scrape_rec html current_url prompt depth st
        [own_page current_url soup] st
  | case_links (soup : DOM) (results : list Page.t) (st' : Session) :
      BeautifulSoup E html = Some soup -> (0 < depth)%Z ->
      follow_links E scrape_rec (dom_links soup) prompt depth
        [own_page current_url soup] st = Some (results, st') ->
      extract_case scrape_rec html current_url prompt depth st results st'.

End Cases.

(** [st'] comes after [st] by the events [l]: the pages asked for are
    new, asked for once, marked before they are asked for, and the
    visited set has grown by exactly them. *)
Definition advances (st st' : Session) (l : list Event) : Prop :=
  trace st' = trace st ++ l
  /\ visited_urls st' = list_to_set (rendered l) ∪ visited_urls st
  /\ NoDup (rendered l)
  /\ (forall u, u ∈ rendered l -> u ∉ visited_urls st)
  /\ (forall u W, Get u W ∈ l -> u ∈ W).

(** The invocations of several calls at budget [d], one after the other. *)
Definition forest (d : Z) (calls : list (string * Z)) : Prop :=
  exists nested, Forall (Spec.invocation d) nested /\ calls = concat nested.

(** A link loop whose calls have budget [d] leads from [st] to [st']. *)
Definition proceeds (d : Z) (st st' : Session) : Prop :=
  exists l, advances st st' l /\ forest d (entered l).

(** A call of [scrape] at budget [d] leads from [st] to [st']. *)
Definition completes (d : Z) (st st' : Session) : Prop :=
  exists l, advances st st' l /\ Spec.invocation d (entered l).

(** What holds of a session between calls. *)
Definition session_ok (st : Session) : Prop :=
  NoDup (rendered (trace st))
  /\ (forall u, u ∈ rendered (trace st) -> u ∈ visited_urls st)
  /\ (forall u W, Get u W ∈ trace st -> u ∈ W).



(** The verdict of the statistical tier on two preprocessed strings. *)
Definition statistical (E : Env) (text prompt : string) (threshold : Q)
  : bool :=
  match tfidf_cosine E prompt text with
  | Some similarity => Qle_bool threshold similarity
  | None => false
  end.

(** An element the content loop collects: one of the thirteen tags, with
    a text longer than 20 characters. *)
Definition is_content_element (e : string * string) : bool :=
  existsb (String.eqb (fst e)) Spec.content_tags && long_enough (snd e).

(** The record [process_results] builds from a record it built before:
    every block is kept, so the score is the block count over itself. *)
Definition rescored (page : Page.t) : Page.t :=
  Page.mk (Page.url page) (Page.title page) (Page.content page)
    (Some (Z.of_nat (List.length (Page.content page))
           # Pos.of_nat (List.length (Page.content page)))).

(** [u] is what [scrape] renders for a link that [is_same_domain]
    accepted under the base URL [base]. *)
Definition linked (E : Env) (base : option string) (u : string) : Prop :=
  exists next_url : string,
    next_url <> ""%string
    /\ is_same_domain E base next_url = true
    /\ normalize_url E base next_url = Some u.

(** While the base URL is [base], only pages of accepted links are
    asked for between [st] and [st'], and the base URL stays. *)
Definition stays_linked (E : Env) (base : option string)
    (st st' : Session) : Prop :=
  base_url st = base ->
  exists l,
    trace st' = trace st ++ l
    /\ (forall u, u ∈ rendered l -> linked E base u)
    /\ base_url st' = base.

(** Two sessions with the same visited set and the same base URL. *)
Definition agree (st1 st2 : Session) : Prop :=
  visited_urls st1 = visited_urls st2 /\ base_url st1 = base_url st2.

(** What [scrape(seed, depth=1)] returns on a new client of the small
    site, and the session it leaves; the same with the prompt
    [analytics]. *)
Definition site_crawl : list Page.t * Session :=
  Eval vm_compute in
    match scrape Demo.site Demo.seed None 1 init with
    | Some out => out
    | None => ([], init)
    end.

Definition site_crawl_prompted : list Page.t * Session :=
  Eval vm_compute in
    match scrape Demo.site Demo.seed (Some "analytics"%string) 1 init with
    | Some out => out
    | None => ([], init)
    end.

(* ================================================================== *)
(** ** Facts about Python strings *)
(* ================================================================== *)

Module PyStrFacts.
Import PyStr PyStrNorm.

Ltac each_char c :=
  destruct c as [[] [] [] [] [] [] [] []]; vm_compute; try reflexivity.

Lemma settled_sub_lower (c : ascii) : settled (sub_char (lower_char c)) = true.
Proof. each_char c. Qed.

Lemma settled_space : settled space = true.
Proof. reflexivity. Qed.

Lemma is_space_space : is_space space = true.
Proof. reflexivity. Qed.

Lemma all_chars_map (P : ascii -> bool) (f : ascii -> ascii) (s : string) :
  (forall c, P (f c) = true) -> all_chars P (map_chars f s) = true.
Proof.
  intros HP. induction s as [|c r IH]; simpl; [reflexivity|].
  now rewrite HP, IH.
Qed.

Lemma map_chars_compose (f g : ascii -> ascii) (s : string) :
  map_chars f (map_chars g s) = map_chars (fun c => f (g c)) s.
Proof. induction s as [|c r IH]; simpl; congruence. Qed.

Lemma map_chars_fixed (f : ascii -> ascii) (s : string) :
  all_chars (fun c => Ascii.eqb (f c) c) s = true -> map_chars f s = s.
Proof.
  induction s as [|c r IH]; simpl; [reflexivity|].
  intros [Hc Hr]%andb_true_iff. apply Ascii.eqb_eq in Hc.
  now rewrite Hc, IH.
Qed.

Lemma all_chars_weaken (P Q : ascii -> bool) (s : string) :
  (forall c, P c = true -> Q c = true) ->
  all_chars P s = true -> all_chars Q s = true.
Proof.
  intros HPQ. induction s as [|c r IH]; simpl; [reflexivity|].
  intros [Hc Hr]%andb_true_iff. now rewrite (HPQ _ Hc), IH.
Qed.

Lemma settled_lower (s : string) :
  all_chars settled s = true -> lower s = s.
Proof.
  intros H. apply map_chars_fixed. revert H. apply all_chars_weaken.
  unfold settled. now intros c [H _]%andb_true_iff.
Qed.

Lemma settled_sub_special (s : string) :
  all_chars settled s = true -> sub_special s = s.
Proof.
  intros H. apply map_chars_fixed. revert H. apply all_chars_weaken.
  unfold settled. now intros c [_ H]%andb_true_iff.
Qed.

Lemma settled_sub_spaces (b : bool) (s : string) :
  all_chars settled s = true ->
  all_chars settled (sub_spaces_from b s) = true.
Proof.
  revert b. induction s as [|c r IH]; intros b; simpl; [reflexivity|].
  intros [Hc Hr]%andb_true_iff.
  destruct (is_space c); [destruct b|]; simpl; rewrite ?Hc, ?IH; auto.
Qed.

Lemma settled_lstrip (s : string) :
  all_chars settled s = true -> all_chars settled (lstrip s) = true.
Proof.
  induction s as [|c r IH]; simpl; [reflexivity|].
  intros H. destruct (is_space c); [|exact H].
  apply IH. now apply andb_true_iff in H as [_ H].
Qed.

Lemma settled_rstrip (s : string) :
  all_chars settled s = true -> all_chars settled (rstrip s) = true.
Proof.
  induction s as [|c r IH]; simpl; [reflexivity|].
  intros [Hc Hr]%andb_true_iff.
  destruct (is_space c && String.eqb (rstrip r) ""); simpl;
    [reflexivity|]. now rewrite Hc, IH.
Qed.

Lemma tidy_sub_spaces (b : bool) (s : string) :
  tidy b (sub_spaces_from b s) = true.
Proof.
  revert b. induction s as [|c r IH]; intros b; simpl; [reflexivity|].
  destruct (is_space c) eqn:Hc.
  - destruct b; [apply IH|]. simpl. apply IH.
  - simpl. rewrite Hc. apply IH.
Qed.

Lemma tidy_fixed (b : bool) (s : string) :
  tidy b s = true -> sub_spaces_from b s = s.
Proof.
  revert b. induction s as [|c r IH]; intros b; simpl; [reflexivity|].
  destruct (is_space c).
  - intros [[Hb Hc]%andb_true_iff Hr]%andb_true_iff.
    apply negb_true_iff in Hb. apply Ascii.eqb_eq in Hc. subst b c.
    now rewrite IH.
  - intros Hr. now rewrite IH.
Qed.

Lemma tidy_relax (s : string) : tidy true s = true -> tidy false s = true.
Proof.
  destruct s as [|c r]; simpl; [reflexivity|].
  destruct (is_space c); [discriminate|auto].
Qed.

Lemma tidy_lstrip (b : bool) (s : string) :
  tidy b s = true -> tidy false (lstrip s) = true.
Proof.
  revert b. induction s as [|c r IH]; intros b; simpl; [reflexivity|].
  destruct (is_space c) eqn:Hc.
  - intros [_ Hr]%andb_true_iff. now apply IH with (b := true).
  - intros Hr. simpl. now rewrite Hc.
Qed.

Lemma tidy_rstrip (b : bool) (s : string) :
  tidy b s = true -> tidy b (rstrip s) = true.
Proof.
  revert b. induction s as [|c r IH]; intros b; simpl; [reflexivity|].
  destruct (is_space c) eqn:Hc; simpl.
  - intros [Hbc Hr]%andb_true_iff.
    destruct (String.eqb (rstrip r) ""); simpl; [reflexivity|].
    rewrite Hc, Hbc. now apply IH.
  - intros Hr. rewrite Hc. now apply IH.
Qed.

Lemma no_lead_lstrip (s : string) : no_lead (lstrip s) = true.
Proof.
  induction s as [|c r IH]; simpl; [reflexivity|].
  destruct (is_space c) eqn:Hc; [exact IH|]. simpl. now rewrite Hc.
Qed.

Lemma no_lead_fixed (s : string) : no_lead s = true -> lstrip s = s.
Proof.
  destruct s as [|c r]; simpl; [reflexivity|].
  now intros ->%negb_true_iff.
Qed.

Lemma no_lead_rstrip (s : string) :
  no_lead s = true -> no_lead (rstrip s) = true.
Proof.
  destruct s as [|c r]; simpl; [reflexivity|].
  intros Hc. apply negb_true_iff in Hc. rewrite Hc. simpl.
  now rewrite Hc.
Qed.

Lemma rstrip_idempotent (s : string) : rstrip (rstrip s) = rstrip s.
Proof.
  induction s as [|c r IH]; simpl; [reflexivity|].
  destruct (is_space c && String.eqb (rstrip r) "") eqn:Hc; simpl;
    [reflexivity|]. now rewrite IH, Hc.
Qed.

Lemma strip_idempotent (s : string) : strip (strip s) = strip s.
Proof.
  unfold strip.
  rewrite (no_lead_fixed (rstrip (lstrip s))).
  - apply rstrip_idempotent.
  - apply no_lead_rstrip, no_lead_lstrip.
Qed.

Lemma append_cons (c : ascii) (a b : string) :
  String.append (String c a) b = String c (String.append a b).
Proof. reflexivity. Qed.

Lemma append_empty (b : string) : String.append "" b = b.
Proof. reflexivity. Qed.

(** [String.prefix] and [contains] say what they should. *)
Lemma prefix_spec (p s : string) :
  String.prefix p s = true <-> exists b, s = String.append p b.
Proof.
  revert s. induction p as [|c p IH]; intros s.
  - split; [intros _; now exists s | now destruct s].
  - destruct s as [|d s]; simpl.
    + split; [discriminate | intros [b Hb]; discriminate].
    + destruct (ascii_dec c d) as [->|Hne].
      * rewrite IH.
        split; intros [b Hb]; exists b; rewrite append_cons in *;
          congruence.
      * split; [discriminate|].
        intros [b Hb]. rewrite append_cons in Hb. congruence.
Qed.

Lemma contains_spec (s p : string) :
  contains s p = true <-> Spec.is_substring p s.
Proof.
  unfold Spec.is_substring. induction s as [|c r IH].
  - change (contains "" p) with (String.prefix p "" || false).
    rewrite orb_false_r, prefix_spec. split.
    + intros [b Hb]. now exists ""%string, b.
    + intros [a [b Hab]]. destruct a as [|d a].
      * now exists b.
      * rewrite append_cons in Hab. discriminate.
  - change (contains (String c r) p)
      with (String.prefix p (String c r) || contains r p).
    rewrite orb_true_iff, prefix_spec, IH. split.
    + intros [[b Hb] | [a [b Hab]]].
      * now exists ""%string, b.
      * exists (String c a), b. rewrite append_cons. now rewrite Hab.
    + intros [a [b Hab]]. destruct a as [|d a].
      * left. now exists b.
      * right. exists a, b. rewrite append_cons in Hab. congruence.
Qed.

End PyStrFacts.

(** The result of [preprocess_text]: lower case, word characters and
    single blanks only, no blank at either end. *)
Lemma preprocess_text_settled (s : string) :
  PyStr.all_chars PyStrNorm.settled (preprocess_text s) = true.
Proof.
  unfold preprocess_text, PyStr.strip, PyStr.sub_spaces.
  apply PyStrFacts.settled_rstrip, PyStrFacts.settled_lstrip,
    PyStrFacts.settled_sub_spaces.
  unfold PyStr.sub_special, PyStr.lower.
  rewrite PyStrFacts.map_chars_compose.
  apply PyStrFacts.all_chars_map, PyStrFacts.settled_sub_lower.
Qed.

Lemma preprocess_text_tidy (s : string) :
  PyStrNorm.tidy false (preprocess_text s) = true.
Proof.
  unfold preprocess_text, PyStr.strip, PyStr.sub_spaces.
  apply PyStrFacts.tidy_rstrip, (PyStrFacts.tidy_lstrip false),
    PyStrFacts.tidy_sub_spaces.
Qed.

Lemma lower_preprocess_text (s : string) :
  PyStr.lower (preprocess_text s) = preprocess_text s.
Proof. apply PyStrFacts.settled_lower, preprocess_text_settled. Qed.

(** C10: [preprocess_text] is idempotent: preprocessing an already
    preprocessed string gives it back, for every string. *)
Theorem preprocess_text_idempotent (s : string) :
  preprocess_text (preprocess_text s) = preprocess_text s.
Proof.
  pose proof (preprocess_text_settled s) as Hset.
  pose proof (preprocess_text_tidy s) as Htidy.
  unfold preprocess_text at 1.
  rewrite (PyStrFacts.settled_lower _ Hset).
  rewrite (PyStrFacts.settled_sub_special _ Hset).
  unfold PyStr.sub_spaces. rewrite (PyStrFacts.tidy_fixed _ _ Htidy).
  unfold preprocess_text. apply PyStrFacts.strip_idempotent.
Qed.

(* ================================================================== *)
(** ** The relevance scorer *)
(* ================================================================== *)

Section Relevance.

Context (E : Env).

Lemma falsy_true (s : string) : PyStr.falsy s = true <-> s = ""%string.
Proof. apply String.eqb_eq. Qed.

Lemma falsy_false (s : string) : PyStr.falsy s = false <-> s <> ""%string.
Proof. apply String.eqb_neq. Qed.

Lemma preprocess_text_empty : preprocess_text "" = ""%string.
Proof. reflexivity. Qed.

Lemma is_keyword_spec (s w : string) :
  w ∈ word_tokenize E s /\ is_keyword E w = true <-> Spec.keyword_of E s w.
Proof.
  unfold is_keyword, Spec.keyword_of.
  rewrite !andb_true_iff, !negb_true_iff, Nat.ltb_lt.
  rewrite bool_decide_eq_false. tauto.
Qed.

(** On a preprocessed string the keyword set holds the keywords of the
    string as it is: lowering it again changes nothing. *)
Lemma elem_of_extract_keywords (s w : string) :
  w ∈ extract_keywords E (preprocess_text s)
  <-> Spec.keyword_of E (preprocess_text s) w.
Proof.
  unfold extract_keywords. rewrite lower_preprocess_text.
  rewrite elem_of_list_to_set, list_elem_of_In, filter_In.
  rewrite <- list_elem_of_In. apply is_keyword_spec.
Qed.

Lemma overlap_spec (A B : gset string) :
  (0 <? size (A ∩ B)) = true <-> exists w, w ∈ A /\ w ∈ B.
Proof.
  rewrite Nat.ltb_lt. split.
  - intros [w Hw]%size_pos_elem_of. exists w. set_solver.
  - intros [w [HA HB]].
    destruct (size (A ∩ B)) eqn:Hsize; [|lia].
    apply size_empty_inv in Hsize. set_solver.
Qed.

Lemma partial_match_spec (p t : string) :
  partial_match p t = true
  <-> (3 < String.length p /\ Spec.is_substring p t)
      \/ (3 < String.length t /\ Spec.is_substring t p).
Proof.
  unfold partial_match.
  rewrite orb_true_iff, !andb_true_iff, !Nat.ltb_lt.
  now rewrite !PyStrFacts.contains_spec.
Qed.

Lemma partial_loops_spec (A B : gset string) :
  existsb (fun p => existsb (fun t => partial_match p t) (elements B))
          (elements A) = true
  <-> exists p t, p ∈ A /\ t ∈ B /\ partial_match p t = true.
Proof.
  rewrite existsb_exists. split.
  - intros [p [Hp Hex]]. apply existsb_exists in Hex as [t [Ht Hpt]].
    exists p, t. rewrite <- list_elem_of_In, elem_of_elements in Hp, Ht.
    auto.
  - intros (p & t & Hp & Ht & Hpt). exists p. split.
    + now rewrite <- list_elem_of_In, elem_of_elements.
    + apply existsb_exists. exists t. split; [|exact Hpt].
      now rewrite <- list_elem_of_In, elem_of_elements.
Qed.

Lemma statistical_spec (text prompt : string) (threshold : Q) :
  match tfidf_cosine E prompt text with
  | Some similarity => Qle_bool threshold similarity
  | None => false
  end = true
  <-> Spec.tier1 E text prompt threshold.
Proof.
  unfold Spec.tier1. destruct (tfidf_cosine E prompt text) as [s|].
  - rewrite Qle_bool_iff. split.
    + intros H. now exists s.
    + intros [s' [[= ->] H]]. exact H.
  - split; [discriminate | intros [s' [[=] _]]].
Qed.

(** C5: [is_relevant_to_prompt] answers false when either preprocessed
    input is empty; otherwise it answers true exactly when the
    statistical tier, the keyword-overlap tier or the partial-match
    tier fires on the two preprocessed strings. *)
Theorem is_relevant_to_prompt_tiers (text prompt : string) (threshold : Q) :
  let t := preprocess_text text in
  let p := preprocess_text prompt in
  (t = ""%string \/ p = ""%string ->
   is_relevant_to_prompt E text prompt threshold = false)
  /\ (t <> ""%string -> p <> ""%string ->
      (is_relevant_to_prompt E text prompt threshold = true
       <-> Spec.tier1 E t p threshold
           \/ Spec.tier2 E t p
           \/ Spec.tier3 E t p)).
Proof.
  intros t p. unfold is_relevant_to_prompt. fold t p. split.
  - intros Hempty.
    destruct (PyStr.falsy text || PyStr.falsy prompt); [reflexivity|].
    assert (PyStr.falsy t || PyStr.falsy p = true) as ->; [|reflexivity].
    rewrite orb_true_iff, !falsy_true. exact Hempty.
  - intros Ht Hp.
    assert (PyStr.falsy text || PyStr.falsy prompt = false) as ->.
    { apply orb_false_iff. rewrite !falsy_false.
      split; intros ->; [apply Ht | apply Hp]; reflexivity. }
    assert (PyStr.falsy t || PyStr.falsy p = false) as ->.
    { apply orb_false_iff. now rewrite !falsy_false. }
    pose proof (statistical_spec t p threshold) as H1.
    destruct (match tfidf_cosine E p t with
              | Some s => Qle_bool threshold s
              | None => false
              end) eqn:Hstat.
    { split; [intros _; left; now apply H1 | reflexivity]. }
    assert (~ Spec.tier1 E t p threshold) as Hno1.
    { intros H. apply H1 in H. discriminate. }
    pose proof (overlap_spec (extract_keywords E p) (extract_keywords E t))
      as H2.
    assert ((exists w, w ∈ extract_keywords E p /\ w ∈ extract_keywords E t)
            <-> Spec.tier2 E t p) as H2'.
    { unfold Spec.tier2. subst t p.
      split; intros [w Hw]; exists w;
        rewrite !elem_of_extract_keywords in *; exact Hw. }
    destruct (0 <? size (extract_keywords E p ∩ extract_keywords E t)).
    { split; [intros _; right; left; now apply H2', H2 | reflexivity]. }
    assert (~ Spec.tier2 E t p) as Hno2.
    { intros H. apply H2', H2 in H. discriminate. }
    rewrite partial_loops_spec. unfold Spec.tier3. subst t p. split.
    + intros (pw & tw & Hpw & Htw & Hm). right; right. exists pw, tw.
      rewrite elem_of_extract_keywords in Hpw, Htw.
      now rewrite <- partial_match_spec.
    + intros [H | [H | (pw & tw & Hpw & Htw & Hm)]]; [tauto | tauto |].
      exists pw, tw. rewrite !elem_of_extract_keywords.
      now rewrite partial_match_spec.
Qed.

End Relevance.

(* ================================================================== *)
(** ** The result processor *)
(* ================================================================== *)

Section ResultProcessor.

Context (E : Env).

(** The inner loop keeps the relevant blocks in order and counts them
    twice over. *)
Lemma score_blocks (prompt : string) (blocks kept : list string)
    (count total : nat) :
  fold_left (score_block E prompt) blocks (kept, count, total)
  = (kept ++ List.filter (relevant E prompt) blocks,
     count + List.length (List.filter (relevant E prompt) blocks),
     total + List.length (List.filter (relevant E prompt) blocks)).
Proof.
  revert kept count total.
  induction blocks as [|b blocks IH]; intros kept count total.
  - simpl. now rewrite app_nil_r, !Nat.add_0_r.
  - cbn [fold_left List.filter].
    assert (score_block E prompt (kept, count, total) b
            = if relevant E prompt b
              then (kept ++ [b], S count, S total)
              else (kept, count, total)) as -> by reflexivity.
    destruct (relevant E prompt b); rewrite IH; [|reflexivity].
    rewrite <- app_assoc. simpl. now rewrite !Nat.add_succ_r.
Qed.

Lemma process_result_spec (prompt : string) (acc : list Page.t)
    (result : Page.t) :
  process_result E prompt acc result
  = acc ++ match Spec.filter_page (relevant E prompt) result with
           | Some page => [page]
           | None => []
           end.
Proof.
  unfold process_result, Spec.filter_page.
  rewrite score_blocks. simpl.
  destruct (List.filter (relevant E prompt) (Page.content result)); simpl.
  - now rewrite app_nil_r.
  - reflexivity.
Qed.

Lemma process_loop_spec (prompt : string) (results acc : list Page.t) :
  fold_left (process_result E prompt) results acc
  = acc ++ omap (Spec.filter_page (relevant E prompt)) results.
Proof.
  revert acc. induction results as [|r results IH]; intros acc; simpl.
  - now rewrite app_nil_r.
  - rewrite IH, process_result_spec, <- app_assoc.
    now destruct (Spec.filter_page (relevant E prompt) r).
Qed.

(** C4: without a prompt, or with the empty one, [process_results]
    returns its input; with a prompt, every page keeps exactly its
    relevant blocks in their order, scored by their number over the
    number of blocks it had, and a page with no relevant block is
    left out. *)
Theorem process_results_spec (results : list Page.t)
    (prompt : option string) :
  (PyStr.falsy_opt prompt = true ->
   process_results E results prompt = results)
  /\ (forall p : string, prompt = Some p -> p <> ""%string ->
      process_results E results prompt
      = omap (Spec.filter_page
                (fun block =>
                   is_relevant_to_prompt E block p default_threshold))
             results).
Proof.
  split.
  - destruct prompt as [p|]; simpl; [|reflexivity].
    now intros ->.
  - intros p -> Hp. simpl.
    apply falsy_false in Hp. rewrite Hp.
    now rewrite process_loop_spec.
Qed.

(** A page that went through the processor once keeps all its blocks
    the second time, so its score becomes 1. *)
Lemma filter_page_again (prompt : string) (page page' : Page.t) :
  Spec.filter_page (relevant E prompt) page = Some page' ->
  Spec.filter_page (relevant E prompt) page'
  = Some (Page.mk (Page.url page') (Page.title page') (Page.content page')
            (Some (Z.of_nat (List.length (Page.content page'))
                   # Pos.of_nat (List.length (Page.content page'))))).
Proof.
  unfold Spec.filter_page.
  destruct (List.filter (relevant E prompt) (Page.content page))
    as [|b kept] eqn:Hkept; [discriminate|].
  intros [= <-]. simpl Page.content. simpl Page.url. simpl Page.title.
  assert (List.filter (relevant E prompt) (b :: kept) = b :: kept) as ->.
  { rewrite <- Hkept. clear.
    induction (Page.content page) as [|c l IH]; simpl; [reflexivity|].
    destruct (relevant E prompt c) eqn:Hc; simpl; [|exact IH].
    now rewrite Hc, IH. }
  reflexivity.
Qed.

End ResultProcessor.

(* ================================================================== *)
(** ** The content extractor *)
(* ================================================================== *)

Section ContentExtractor.

Lemma collect_element_spec (acc : list string) (text : string) :
  collect_element acc text
  = acc ++ (if long_enough text then [text] else []).
Proof.
  unfold collect_element, long_enough.
  destruct text as [|c r]; simpl; [now rewrite app_nil_r|].
  destruct (20 <? S (String.length r)); [reflexivity|].
  now rewrite app_nil_r.
Qed.

Lemma collect_elements_spec (texts acc : list string) :
  fold_left collect_element texts acc
  = acc ++ List.filter long_enough texts.
Proof.
  revert acc. induction texts as [|t texts IH]; intros acc; simpl.
  - now rewrite app_nil_r.
  - rewrite IH, collect_element_spec, <- app_assoc.
    now destruct (long_enough t).
Qed.

Lemma collect_tags_spec (soup : DOM) (tags : list string)
    (acc : list string) :
  fold_left (collect_tag soup) tags acc
  = acc ++ flat_map (fun tag => List.filter long_enough (find_all soup tag))
                    tags.
Proof.
  revert acc. induction tags as [|tag tags IH]; intros acc; simpl.
  - now rewrite app_nil_r.
  - rewrite IH. unfold collect_tag at 1.
    now rewrite collect_elements_spec, <- app_assoc.
Qed.

Lemma page_content_spec (soup : DOM) : page_content soup = Spec.content soup.
Proof.
  unfold page_content, content_elements, Spec.content, Spec.content_tags.
  cbn [fold_left]. unfold collect_category. cbn [snd].
  rewrite !collect_tags_spec. cbn [flat_map app].
  rewrite ?app_nil_r, <- ?app_assoc. reflexivity.
Qed.

(** C9: the content of a page is, tag by tag, the stripped texts of
    the elements that are longer than 20 characters; so the text of an
    element of a matched tag is a content block exactly when its length
    exceeds 20. *)
Theorem page_content_length_filter (soup : DOM) :
  page_content soup = Spec.content soup
  /\ (forall tag text : string,
        tag ∈ Spec.content_tags ->
        text ∈ find_all soup tag ->
        (text ∈ page_content soup <-> 20 < String.length text)).
Proof.
  split; [apply page_content_spec|].
  intros tag text Htag Htext. rewrite page_content_spec.
  unfold Spec.content.
  rewrite list_elem_of_In, in_flat_map. split.
  - intros [tag' [_ Hin]]. apply filter_In in Hin as [_ Hlen].
    now apply Nat.ltb_lt in Hlen.
  - intros Hlen. exists tag. rewrite filter_In, <- !list_elem_of_In.
    repeat split; [exact Htag | exact Htext |].
    now apply Nat.ltb_lt.
Qed.

End ContentExtractor.

(* ================================================================== *)
(** ** The URL normalizer *)
(* ================================================================== *)

Section Normalizer.

Context (E : Env).

Lemma startswith_http_has_scheme (url : string) :
  PyStr.startswith url "http://" = true
  \/ PyStr.startswith url "https://" = true ->
  Spec.has_scheme url = true.
Proof.
  unfold PyStr.startswith. rewrite !PyStrFacts.prefix_spec.
  intros [[b ->] | [b ->]]; reflexivity.
Qed.

(** C8, as the code has it: the empty URL gives [None]; a URL that
    starts with [http://] or [https://] is returned as it is; every
    other URL is resolved against the base URL, and so is in particular
    every non-empty URL without a scheme. *)
Theorem normalize_url_cases (base : option string) (url : string) :
  (url = ""%string -> normalize_url E base url = None)
  /\ (PyStr.startswith url "http://" = true
      \/ PyStr.startswith url "https://" = true ->
      normalize_url E base url = Some url)
  /\ (url <> ""%string ->
      PyStr.startswith url "http://" = false ->
      PyStr.startswith url "https://" = false ->
      normalize_url E base url = urljoin E base url)
  /\ (url <> ""%string -> Spec.has_scheme url = false ->
      normalize_url E base url = urljoin E base url).
Proof.
  unfold normalize_url. repeat split.
  - now intros ->.
  - intros H.
    assert (PyStr.falsy url = false) as ->.
    { apply falsy_false. intros ->. now destruct H. }
    apply orb_true_iff in H. now rewrite H.
  - intros Hne%falsy_false H1 H2. now rewrite Hne, H1, H2.
  - intros Hne%falsy_false Hscheme. rewrite Hne.
    destruct (PyStr.startswith url "http://"
              || PyStr.startswith url "https://") eqn:Hpre;
      [|reflexivity].
    apply orb_true_iff, startswith_http_has_scheme in Hpre. congruence.
Qed.

End Normalizer.

(** C8, as stated, fails: this absolute URL does not start with one of
    the two lower-case prefixes, so it is handed to [urljoin], which
    writes its scheme in lower case. *)
Lemma normalize_url_absolute_counterexample :
  let base := Some "https://lifesight.io"%string in
  let url := "HTTPS://Example.com/"%string in
  Spec.has_scheme url = true
  /\ normalize_url Demo.site base url = Some "https://Example.com/"%string
  /\ normalize_url Demo.site base url
     <> Spec.normalize (urljoin Demo.site) base url.
Proof. vm_compute. repeat split. discriminate. Qed.

(* ================================================================== *)
(** ** The crawl controller: one step of [scrape] *)
(* ================================================================== *)

Section ScrapeStep.

Context (E : Env).

Lemma base_url_enter (url : string) (depth : Z) (st : Session) :
  base_url (enter url depth st) = base_for st url.
Proof.
  unfold enter, base_for. simpl.
  now destruct (PyStr.falsy_opt (base_url st)).
Qed.

Lemma visited_urls_enter (url : string) (depth : Z) (st : Session) :
  visited_urls (enter url depth st) = visited_urls st.
Proof.
  unfold enter. simpl. now destruct (PyStr.falsy_opt (base_url st)).
Qed.

Lemma trace_enter (url : string) (depth : Z) (st : Session) :
  trace (enter url depth st) = trace st ++ [Enter url depth].
Proof.
  unfold enter. simpl. now destruct (PyStr.falsy_opt (base_url st)).
Qed.

Lemma scrape_fuel_inv (fuel : nat) (url : string) (prompt : option string)
    (depth : Z) (st : Session) (results : list Page.t) (st' : Session) :
  scrape_fuel E (S fuel) url prompt depth st = Some (results, st') ->
  scrape_case E fuel url prompt depth st results st'.
Proof.
  change (scrape_fuel E (S fuel) url prompt depth st)
    with (scrape_body E (scrape_fuel E fuel) url prompt depth st).
  unfold scrape_body.
  change (if PyStr.falsy_opt (base_url (emit (Enter url depth) st))
          then set_base_url url (emit (Enter url depth) st)
          else emit (Enter url depth) st)
    with (enter url depth st).
  rewrite base_url_enter, visited_urls_enter.
  destruct (normalize_url E (base_for st url) url) as [u|] eqn:Hnorm.
  2: { intros [= <- <-]. now constructor. }
  destruct (PyStr.falsy u) eqn:Hu; simpl.
  { intros [= <- <-]. apply case_invalid; [exact Hnorm|].
    left. now apply falsy_true. }
  apply falsy_false in Hu.
  destruct (is_valid_url E u) eqn:Hvalid; simpl.
  2: { intros [= <- <-]. apply case_invalid; auto. }
  destruct (bool_decide (u ∈ visited_urls st)) eqn:Hseen; simpl.
  { intros [= <- <-]. apply (case_stop _ _ _ _ _ _ u); auto.
    left. now apply bool_decide_eq_true in Hseen. }
  apply bool_decide_eq_false in Hseen.
  destruct (depth <? 0)%Z eqn:Hdepth.
  { intros [= <- <-]. apply (case_stop _ _ _ _ _ _ u); auto.
    right. now apply Z.ltb_lt. }
  apply Z.ltb_ge in Hdepth.
  change (emit (Get u ({[u]} ∪ visited_urls (enter url depth st)))
            (emit (Scraping u) (add_visited u (enter url depth st))))
    with (mark u (enter url depth st)).
  destruct (driver_get E u) as [[html current_url]|] eqn:Hget.
  2: { intros [= <- <-]. now apply case_error. }
  destruct (extract_data_with E (scrape_fuel E fuel) html current_url
              prompt depth (mark u (enter url depth st)))
    as [[results0 st0]|] eqn:Hextract; [|discriminate].
  intros H.
  assert (results = filtered E prompt results0 /\ st' = st0) as [-> ->].
  { unfold filtered.
    destruct (negb (PyStr.falsy_opt prompt)); now inversion H. }
  now apply (case_page _ _ _ _ _ _ u html current_url).
Qed.

Lemma extract_data_with_inv
    (scrape_rec : string -> option string -> Z -> Session -> Outcome)
    (html current_url : string) (prompt : option string) (depth : Z)
    (st : Session) (results : list Page.t) (st' : Session) :
  extract_data_with E scrape_rec html current_url prompt depth st
  = Some (results, st') ->
  extract_case E scrape_rec html current_url prompt depth st results st'.
Proof.
  unfold extract_data_with.
  destruct (BeautifulSoup E html) as [soup|] eqn:Hsoup.
  2: { intros [= <- <-]. now constructor. }
  fold (own_page current_url soup).
  destruct (0 <? depth)%Z eqn:Hdepth.
  - apply Z.ltb_lt in Hdepth. intros H.
    now apply (case_links _ _ _ _ _ _ _ soup).
  - apply Z.ltb_ge in Hdepth. intros [= <- <-]. now apply case_leaf.
Qed.

End ScrapeStep.

(* ================================================================== *)
(** ** The crawl controller: what a run adds to a session *)
(* ================================================================== *)

Section CrawlRun.

Context (E : Env).

Lemma rendered_app (a b : list Event) :
  rendered (a ++ b) = rendered a ++ rendered b.
Proof.
  induction a as [|e a IH]; [reflexivity|].
  destruct e; simpl; now rewrite IH.
Qed.

Lemma entered_app (a b : list Event) :
  entered (a ++ b) = entered a ++ entered b.
Proof.
  induction a as [|e a IH]; [reflexivity|].
  destruct e; simpl; now rewrite IH.
Qed.

Lemma new_events_app (tr l : list Event) : new_events tr (tr ++ l) = l.
Proof. unfold new_events. apply drop_app_length. Qed.

Lemma advances_new_events (st st' : Session) (l : list Event) :
  advances st st' l -> new_events (trace st) (trace st') = l.
Proof. intros [-> _]. apply new_events_app. Qed.

Lemma advances_refl (st : Session) : advances st st [].
Proof.
  unfold advances. simpl. rewrite app_nil_r.
  repeat split; [set_solver | constructor | set_solver | set_solver].
Qed.

Lemma advances_trans (a b c : Session) (l1 l2 : list Event) :
  advances a b l1 -> advances b c l2 -> advances a c (l1 ++ l2).
Proof.
  intros (Htr1 & Hv1 & Hnd1 & Hnew1 & Hget1).
  intros (Htr2 & Hv2 & Hnd2 & Hnew2 & Hget2).
  unfold advances. rewrite rendered_app. repeat split.
  - now rewrite Htr2, Htr1, app_assoc.
  - rewrite Hv2, Hv1. set_solver.
  - apply NoDup_app. repeat split; [exact Hnd1 | | exact Hnd2].
    intros u Hu1 Hu2. apply (Hnew2 u Hu2). rewrite Hv1. set_solver.
  - intros u [Hu | Hu]%elem_of_app; [now apply Hnew1|].
    intros Hin. apply (Hnew2 u Hu). rewrite Hv1. set_solver.
  - intros u W [Hu | Hu]%elem_of_app; eauto.
Qed.

(** Printing and entering ask for no page. *)
Lemma advances_emit (e : Event) (st : Session) :
  rendered [e] = [] -> advances st (emit e st) [e].
Proof.
  intros He. unfold advances. rewrite He. simpl.
  repeat split; [set_solver | constructor | set_solver |].
  intros u W Hin%list_elem_of_singleton. subst e. discriminate.
Qed.

Lemma advances_enter (url : string) (depth : Z) (st : Session) :
  advances st (enter url depth st) [Enter url depth].
Proof.
  unfold advances. rewrite trace_enter, visited_urls_enter. simpl.
  repeat split; [set_solver | constructor | set_solver |].
  intros u W [=]%list_elem_of_singleton.
Qed.

Lemma advances_mark (u : string) (st : Session) :
  u ∉ visited_urls st ->
  advances st (mark u st)
    [Scraping u; Get u ({[u]} ∪ visited_urls st)].
Proof.
  intros Hnew. unfold advances, mark. simpl. repeat split.
  - now rewrite <- app_assoc.
  - set_solver.
  - apply NoDup_singleton.
  - intros v ->%list_elem_of_singleton. exact Hnew.
  - intros v W Hin. apply elem_of_cons in Hin as [[=] | Hin].
    apply list_elem_of_singleton in Hin as [= -> ->]. set_solver.
Qed.

Lemma forest_nil (d : Z) : forest d [].
Proof. exists []. split; [constructor | reflexivity]. Qed.

Lemma forest_app (d : Z) (a b : list (string * Z)) :
  forest d a -> forest d b -> forest d (a ++ b).
Proof.
  intros (na & Ha & ->) (nb & Hb & ->). exists (na ++ nb). split.
  - now apply Forall_app.
  - now rewrite concat_app.
Qed.

Lemma forest_one (d : Z) (a : list (string * Z)) :
  Spec.invocation d a -> forest d a.
Proof.
  intros Ha. exists [a]. split; [now repeat constructor|].
  simpl. now rewrite app_nil_r.
Qed.

Lemma proceeds_refl (d : Z) (st : Session) : proceeds d st st.
Proof. exists []. split; [apply advances_refl | apply forest_nil]. Qed.

Lemma proceeds_trans (d : Z) (a b c : Session) :
  proceeds d a b -> proceeds d b c -> proceeds d a c.
Proof.
  intros (l1 & H1 & F1) (l2 & H2 & F2). exists (l1 ++ l2). split.
  - now apply advances_trans with b.
  - rewrite entered_app. now apply forest_app.
Qed.

Lemma completes_proceeds (d : Z) (a b : Session) :
  completes d a b -> proceeds d a b.
Proof.
  intros (l & H & I). exists l. split; [exact H | now apply forest_one].
Qed.

(** A call is its entry, then steps that enter nothing, then a link
    loop at the budget below. *)
Lemma completes_intro (url : string) (d : Z) (st s1 st' : Session)
    (l1 : list Event) :
  advances (enter url d st) s1 l1 -> entered l1 = [] ->
  proceeds (d - 1) s1 st' ->
  completes d st st'.
Proof.
  intros H1 He1 (l2 & H2 & nested & Hnested & He2).
  exists ([Enter url d] ++ l1 ++ l2). split.
  - eapply advances_trans; [apply advances_enter|].
    eapply advances_trans; eassumption.
  - rewrite !entered_app, He1, He2. simpl. now constructor.
Qed.

(** The link loop carries a relation that every call it makes
    carries, when the relation is reflexive and transitive. *)
Lemma follow_links_rel (Rel : Session -> Session -> Prop)
    (scrape_rec : string -> option string -> Z -> Session -> Outcome)
    (prompt : option string) (depth : Z) (links : list string) :
  (forall s, Rel s s) ->
  (forall a b c, Rel a b -> Rel b c -> Rel a c) ->
  forall (data : list Page.t) (st : Session) (results : list Page.t)
         (st' : Session),
    (forall href next_url s r s',
        href ∈ links -> Rel st s ->
        normalize_url E (base_url s) href = Some next_url ->
        next_url <> ""%string ->
        is_same_domain E (base_url s) next_url = true ->
        scrape_rec next_url prompt (depth - 1)%Z s = Some (r, s') ->
        Rel s s') ->
    follow_links E scrape_rec links prompt depth data st
    = Some (results, st') ->
    Rel st st'.
Proof.
  intros Hrefl Htrans.
  induction links as [|href links IH]; intros data st results st' Hrec;
    cbn [follow_links].
  - intros [= _ <-]. apply Hrefl.
  - assert (forall s1 data1, Rel st s1 ->
              follow_links E scrape_rec links prompt depth data1 s1
              = Some (results, st') ->
              Rel st st') as Hrest.
    { intros s1 data1 Hs1 Hrun. apply Htrans with s1; [exact Hs1|].
      apply (IH data1 s1 results st'); [|exact Hrun].
      intros h n s r s' Hh Hs. apply Hrec; [set_solver|].
      now apply Htrans with s1. }
    destruct (normalize_url E (base_url st) href) as [next_url|] eqn:Hnorm;
      [|now apply Hrest].
    destruct (negb (PyStr.falsy next_url)
              && is_same_domain E (base_url st) next_url) eqn:Hfollow;
      [|now apply Hrest].
    apply andb_true_iff in Hfollow as [Hne Hsame].
    apply negb_true_iff, falsy_false in Hne.
    destruct (scrape_rec next_url prompt (depth - 1)%Z st)
      as [[nested s1]|] eqn:Hcall; [|discriminate].
    apply Hrest. apply (Hrec href next_url st nested s1); auto.
    set_solver.
Qed.

(** Every call of [scrape] that returns has advanced the session, and
    the calls it made form a tree in which every link is followed at
    the caller's budget less one. *)
Lemma scrape_fuel_completes (fuel : nat) :
  forall (url : string) (prompt : option string) (depth : Z)
         (st : Session) (results : list Page.t) (st' : Session),
    scrape_fuel E fuel url prompt depth st = Some (results, st') ->
    completes depth st st'.
Proof.
  induction fuel as [|fuel IH]; intros url prompt depth st results st';
    [discriminate|].
  intros Hrun. apply scrape_fuel_inv in Hrun.
  destruct Hrun as [Hnorm | u Hnorm Hbad | u Hnorm Hne Hvalid Hstop
                   | u Hnorm Hne Hvalid Hnew Hdepth Hget
                   | u html cur res0 st' Hnorm Hne Hvalid Hnew Hdepth Hget Hex].
  - apply completes_intro
      with (url := url) (s1 := emit (Skipping None) (enter url depth st))
           (l1 := [Skipping None]);
      [now apply advances_emit | reflexivity | apply proceeds_refl].
  - apply completes_intro
      with (url := url)
           (s1 := emit (Skipping (Some u)) (enter url depth st))
           (l1 := [Skipping (Some u)]);
      [now apply advances_emit | reflexivity | apply proceeds_refl].
  - apply completes_intro
      with (url := url) (s1 := enter url depth st) (l1 := []);
      [apply advances_refl | reflexivity | apply proceeds_refl].
  - apply completes_intro
      with (url := url)
           (s1 := emit (ErrorAccessing u) (mark u (enter url depth st)))
           (l1 := [Scraping u;
                   Get u ({[u]} ∪ visited_urls (enter url depth st))]
                  ++ [ErrorAccessing u]);
      [|reflexivity|apply proceeds_refl].
    eapply advances_trans.
    + apply advances_mark. now rewrite visited_urls_enter.
    + now apply (advances_emit (ErrorAccessing u)).
  - assert (advances (enter url depth st) (mark u (enter url depth st))
              [Scraping u;
               Get u ({[u]} ∪ visited_urls (enter url depth st))])
      as Hmark.
    { apply advances_mark. now rewrite visited_urls_enter. }
    apply extract_data_with_inv in Hex.
    destruct Hex as [Hsoup | soup Hsoup Hleaf | soup res1 st' Hsoup Hpos Hloop].
    + apply completes_intro
        with (url := url)
             (s1 := emit ErrorExtracting (mark u (enter url depth st)))
             (l1 := [Scraping u;
                     Get u ({[u]} ∪ visited_urls (enter url depth st))]
                    ++ [ErrorExtracting]);
        [|reflexivity|apply proceeds_refl].
      eapply advances_trans; [exact Hmark|].
      now apply (advances_emit ErrorExtracting).
    + eapply completes_intro;
        [exact Hmark | reflexivity | apply proceeds_refl].
    + eapply completes_intro; [exact Hmark | reflexivity |].
      revert Hloop. apply follow_links_rel.
      * apply proceeds_refl.
      * apply proceeds_trans.
      * intros href next_url s r s' _ _ _ _ _ Hcall.
        apply completes_proceeds. now apply IH in Hcall.
Qed.

End CrawlRun.

(* ================================================================== *)
(** ** The crawl controller: termination *)
(* ================================================================== *)

Section Termination.

Context (E : Env).

Lemma follow_links_returns
    (scrape_rec : string -> option string -> Z -> Session -> Outcome)
    (prompt : option string) (depth : Z) (links : list string) :
  (forall u s, is_Some (scrape_rec u prompt (depth - 1)%Z s)) ->
  forall data st,
    is_Some (follow_links E scrape_rec links prompt depth data st).
Proof.
  intros Hrec. induction links as [|href links IH]; intros data st;
    cbn [follow_links]; [eauto|].
  destruct (normalize_url E (base_url st) href) as [next_url|]; [|apply IH].
  destruct (negb (PyStr.falsy next_url)
            && is_same_domain E (base_url st) next_url); [|apply IH].
  destruct (Hrec next_url st) as [[nested s1] ->]. apply IH.
Qed.

(** A call at budget [depth] nests at most [depth] calls, so a fuel
    above [depth] is never used up. *)
Lemma scrape_fuel_returns (fuel : nat) :
  forall (url : string) (prompt : option string) (depth : Z) (st : Session),
    Z.to_nat depth < fuel ->
    is_Some (scrape_fuel E fuel url prompt depth st).
Proof.
  induction fuel as [|fuel IH]; intros url prompt depth st Hfuel; [lia|].
  change (scrape_fuel E (S fuel) url prompt depth st)
    with (scrape_body E (scrape_fuel E fuel) url prompt depth st).
  unfold scrape_body.
  destruct (normalize_url E _ url) as [u|]; [|eauto].
  destruct (PyStr.falsy u || negb (is_valid_url E u)); [eauto|].
  destruct (bool_decide _ || (depth <? 0)%Z); [eauto|].
  destruct (driver_get E u) as [[html current_url]|]; [|eauto].
  match goal with
  | |- is_Some (match ?run with _ => _ end) =>
      assert (is_Some run) as [[results st'] ->]
  end.
  { unfold extract_data_with.
    destruct (BeautifulSoup E html) as [soup|]; [|eauto].
    destruct (0 <? depth)%Z eqn:Hdepth; [|eauto].
    apply Z.ltb_lt in Hdepth. apply follow_links_returns.
    intros v s. apply IH. lia. }
  destruct (negb (PyStr.falsy_opt prompt)); eauto.
Qed.

(** More fuel changes no result. *)
Lemma follow_links_mono
    (rec rec' : string -> option string -> Z -> Session -> Outcome)
    (prompt : option string) (depth : Z) (links : list string) :
  (forall u s r, rec u prompt (depth - 1)%Z s = Some r ->
                 rec' u prompt (depth - 1)%Z s = Some r) ->
  forall data st r,
    follow_links E rec links prompt depth data st = Some r ->
    follow_links E rec' links prompt depth data st = Some r.
Proof.
  intros Hrec. induction links as [|href links IH]; intros data st r;
    cbn [follow_links]; [auto|].
  destruct (normalize_url E (base_url st) href) as [next_url|]; [|apply IH].
  destruct (negb (PyStr.falsy next_url)
            && is_same_domain E (base_url st) next_url); [|apply IH].
  destruct (rec next_url prompt (depth - 1)%Z st) as [[nested s1]|] eqn:Hcall;
    [|discriminate].
  rewrite (Hrec _ _ _ Hcall). apply IH.
Qed.

Lemma scrape_fuel_mono (fuel : nat) :
  forall url prompt depth st r,
    scrape_fuel E fuel url prompt depth st = Some r ->
    scrape_fuel E (S fuel) url prompt depth st = Some r.
Proof.
  induction fuel as [|fuel IH]; intros url prompt depth st r;
    [discriminate|].
  change (scrape_fuel E (S (S fuel)) url prompt depth st)
    with (scrape_body E (scrape_fuel E (S fuel)) url prompt depth st).
  change (scrape_fuel E (S fuel) url prompt depth st)
    with (scrape_body E (scrape_fuel E fuel) url prompt depth st).
  unfold scrape_body.
  destruct (normalize_url E _ url) as [u|]; [|auto].
  destruct (PyStr.falsy u || negb (is_valid_url E u)); [auto|].
  destruct (bool_decide _ || (depth <? 0)%Z); [auto|].
  destruct (driver_get E u) as [[html current_url]|]; [|auto].
  unfold extract_data_with.
  destruct (BeautifulSoup E html) as [soup|]; [|auto].
  destruct (0 <? depth)%Z; [|auto].
  match goal with
  | |- match ?run with _ => _ end = _ -> _ =>
      destruct run as [[results st']|] eqn:Hloop; [|discriminate]
  end.
  apply (follow_links_mono _ (scrape_fuel E (S fuel))) in Hloop;
    [|intros v s r'; apply IH].
  now rewrite Hloop.
Qed.

(** Any fuel above the budget gives what [scrape] gives. *)
Lemma scrape_fuel_stable (url : string) (prompt : option string) (depth : Z)
    (st : Session) (extra : nat) :
  scrape_fuel E (S (Z.to_nat depth) + extra) url prompt depth st
  = scrape E url prompt depth st.
Proof.
  destruct (scrape_fuel_returns (S (Z.to_nat depth)) url prompt depth st)
    as [r Hr]; [lia|].
  unfold scrape. rewrite Hr.
  induction extra as [|extra IH].
  - now rewrite Nat.add_0_r.
  - rewrite Nat.add_succ_r. now apply scrape_fuel_mono.
Qed.

Lemma scrape_returns (url : string) (prompt : option string) (depth : Z)
    (st : Session) :
  exists results st', scrape E url prompt depth st = Some (results, st').
Proof.
  destruct (scrape_fuel_returns (S (Z.to_nat depth)) url prompt depth st)
    as [[results st'] H]; [lia|].
  now exists results, st'.
Qed.

Lemma scrape_completes (url : string) (prompt : option string) (depth : Z)
    (st : Session) (results : list Page.t) (st' : Session) :
  scrape E url prompt depth st = Some (results, st') ->
  completes depth st st'.
Proof. apply scrape_fuel_completes. Qed.

End Termination.

(* ================================================================== *)
(** ** The crawl controller: no page is rendered twice *)
(* ================================================================== *)

Section RenderedOnce.

Context (E : Env).

Lemma session_ok_init : session_ok init.
Proof.
  unfold session_ok, init. simpl.
  repeat split; [constructor | set_solver | set_solver].
Qed.

Lemma session_ok_advances (st st' : Session) (l : list Event) :
  session_ok st -> advances st st' l -> session_ok st'.
Proof.
  intros (Hnd & Hseen & Hget) (Htr & Hv & Hnd' & Hnew & Hget').
  unfold session_ok. rewrite Htr, rendered_app, Hv. repeat split.
  - apply NoDup_app. repeat split; [exact Hnd | | exact Hnd'].
    intros u Hu Hu'. apply (Hnew u Hu'). now apply Hseen.
  - intros u [Hu | Hu]%elem_of_app; [apply Hseen in Hu|]; set_solver.
  - intros u W [Hu | Hu]%elem_of_app; eauto.
Qed.

Lemma session_ok_run_calls (calls : list (string * option string * Z)) :
  forall st, session_ok st -> session_ok (run_calls E calls st).
Proof.
  induction calls as [|[[url prompt] depth] calls IH]; intros st Hok;
    [exact Hok|].
  cbn [run_calls].
  destruct (scrape E url prompt depth st) as [[results st']|] eqn:Hrun;
    [|exact Hok].
  apply IH. apply scrape_completes in Hrun as (l & Hadv & _).
  now apply session_ok_advances with st l.
Qed.

(** C1: after any sequence of [scrape] calls on a fresh session, the
    URLs the driver was asked for are pairwise distinct, each was in
    the visited set at the moment it was asked for, and each is in the
    visited set at the end. *)
Theorem rendered_once (calls : list (string * option string * Z)) :
  let st := run_calls E calls init in
  NoDup (rendered (trace st))
  /\ (forall u W, Get u W ∈ trace st -> u ∈ W)
  /\ (forall u, u ∈ rendered (trace st) -> u ∈ visited_urls st).
Proof.
  intros st.
  destruct (session_ok_run_calls calls init session_ok_init)
    as (Hnd & Hseen & Hget).
  auto.
Qed.

End RenderedOnce.

(* ================================================================== *)
(** ** The crawl controller: the depth budget *)
(* ================================================================== *)

Section DepthBoundary.

Context (E : Env).

Lemma trace_mark (u : string) (st : Session) :
  trace (mark u st)
  = trace st ++ [Scraping u; Get u ({[u]} ∪ visited_urls st)].
Proof. unfold mark. simpl. now rewrite <- app_assoc. Qed.

Lemma trace_emit (e : Event) (st : Session) :
  trace (emit e st) = trace st ++ [e].
Proof. reflexivity. Qed.

Lemma base_url_emit (e : Event) (st : Session) :
  base_url (emit e st) = base_url st.
Proof. reflexivity. Qed.

Lemma base_url_mark (u : string) (st : Session) :
  base_url (mark u st) = base_url st.
Proof. reflexivity. Qed.

Lemma filtered_no_prompt (prompt : option string) (results : list Page.t) :
  PyStr.falsy_opt prompt = true -> filtered E prompt results = results.
Proof. unfold filtered. now intros ->. Qed.


End DepthBoundary.

(* ================================================================== *)
(** ** The crawl controller: how many pages a call renders *)
(* ================================================================== *)

Section RenderBound.

Context (E : Env).





Lemma normalize_url_truthy_base (st : Session) (url u : string) :
  normalize_url E (base_for st url) url = Some u ->
  PyStr.falsy_opt (base_for st url) = false.
Proof.
  unfold normalize_url, base_for.
  destruct (PyStr.falsy url) eqn:Hurl; [discriminate|]. intros _.
  destruct (PyStr.falsy_opt (base_url st)) eqn:Hbase; [exact Hurl|].
  exact Hbase.
Qed.

Lemma base_for_truthy (st : Session) (url : string) :
  PyStr.falsy_opt (base_url st) = false -> base_for st url = base_url st.
Proof. unfold base_for. now intros ->. Qed.






End RenderBound.

(* ================================================================== *)
(** ** The crawl controller: what an empty result tells *)
(* ================================================================== *)

Section EmptyResult.

Context (E : Env).

Lemma extract_data_with_proceeds (fuel : nat) (html current_url : string)
    (prompt : option string) (depth : Z) (st : Session)
    (results : list Page.t) (st' : Session) :
  extract_data_with E (scrape_fuel E fuel) html current_url prompt depth st
  = Some (results, st') ->
  proceeds (depth - 1) st st'.
Proof.
  intros Hex. apply extract_data_with_inv in Hex.
  destruct Hex as [Hsoup | soup Hsoup Hleaf | soup res1 st' Hsoup Hpos Hloop].
  - exists [ErrorExtracting]. split; [now apply advances_emit|].
    apply forest_nil.
  - apply proceeds_refl.
  - revert Hloop. apply follow_links_rel.
    + apply proceeds_refl.
    + apply proceeds_trans.
    + intros href next_url s r s' _ _ _ _ _ Hcall.
      apply completes_proceeds. now apply scrape_fuel_completes in Hcall.
Qed.

Lemma visited_urls_mark (u : string) (st : Session) :
  visited_urls (mark u st) = {[u]} ∪ visited_urls st.
Proof. reflexivity. Qed.


End EmptyResult.

(* ================================================================== *)
(** ** The small site, run *)
(* ================================================================== *)

Module DemoFacts.
Import Demo.

Local Open Scope string_scope.



End DemoFacts.

(* ================================================================== *)
(** ** The statements at work on the small site *)
(* ================================================================== *)

Section Instances.

Import Demo.
Local Open Scope string_scope.

(** C3 fails on the code: with the prompt [analytics] the page behind
    the link has two blocks of which one is relevant, so its score
    should be 1/2; the record comes back from the nested call with
    that score and is then scored again by the caller against its one
    remaining block, which gives 1.  The seed's own record, scored
    once, has 1/2. *)
Theorem nested_page_score_overwritten :
  let prompt := "analytics" in
  let extracted := own_page about about_dom in
  let relevant :=
    fun block => is_relevant_to_prompt site block prompt default_threshold in
  option_map fst (scrape site seed (Some prompt) 1 init)
  = Some [ Page.mk seed "Home"
             ["Reports about data analytics and insights."]
             (Some (1 # 2));
           Page.mk about "About"
             ["Our analytics team writes weekly."]
             (Some (1 # 1)) ]
  /\ option_map fst (scrape site about (Some prompt) 0 init)
     = Some [ Page.mk about "About"
                ["Our analytics team writes weekly."]
                (Some (1 # 2)) ]
  /\ List.length (List.filter relevant (Page.content extracted)) = 1
  /\ List.length (Page.content extracted) = 2.
Proof. vm_compute. auto. Qed.






Lemma process_results_spec_witness :
  process_results site [own_page about about_dom] (Some "analytics")
  = omap (Spec.filter_page
            (fun block =>
               is_relevant_to_prompt site block "analytics"
                 default_threshold))
         [own_page about about_dom].
Proof.
  apply (proj2 (process_results_spec site [own_page about about_dom]
                  (Some "analytics")) "analytics" eq_refl).
  discriminate.
Defined.

Lemma is_relevant_to_prompt_tiers_witness :
  let text := "This is content about data analytics and visualization" in
  let prompt := "data analytics" in
  is_relevant_to_prompt site text prompt default_threshold = true
  <-> Spec.tier1 site (preprocess_text text) (preprocess_text prompt)
        default_threshold
      \/ Spec.tier2 site (preprocess_text text) (preprocess_text prompt)
      \/ Spec.tier3 site (preprocess_text text) (preprocess_text prompt).
Proof.
  intros text prompt.
  apply (proj2 (is_relevant_to_prompt_tiers site text prompt
                  default_threshold));
    vm_compute; discriminate.
Defined.

Lemma normalize_url_cases_witness :
  normalize_url site (Some "https://lifesight.io") "/page"
  = urljoin site (Some "https://lifesight.io") "/page"
  /\ normalize_url site (Some "https://lifesight.io") "https://google.com"
     = Some "https://google.com".
Proof.
  split.
  - apply (proj2 (proj2 (proj2
             (normalize_url_cases site (Some "https://lifesight.io")
                "/page")))); [discriminate | reflexivity].
  - apply (proj1 (proj2
             (normalize_url_cases site (Some "https://lifesight.io")
                "https://google.com"))).
    right. reflexivity.
Defined.

Lemma page_content_length_filter_witness :
  ("12345678901234567890" ∉ page_content boundary_dom)
  /\ ("123456789012345678901" ∈ page_content boundary_dom).
Proof.
  destruct (page_content_length_filter boundary_dom) as [_ Hiff].
  assert ("p" ∈ Spec.content_tags) as Htag by apply list_elem_of_here.
  split.
  - intros Hin. apply (Hiff "p") in Hin; [simpl in Hin; lia | exact Htag |].
    apply list_elem_of_here.
  - apply (Hiff "p"); [exact Htag | | simpl; lia].
    apply list_elem_of_further, list_elem_of_here.
Defined.

End Instances.

(* ================================================================== *)
(** ** More about preprocessing and relevance *)
(* ================================================================== *)

Section RelevanceMore.

Context (E : Env).

Lemma lower_char_idempotent (c : ascii) :
  PyStr.lower_char (PyStr.lower_char c) = PyStr.lower_char c.
Proof. PyStrFacts.each_char c. Qed.

Lemma lower_idempotent (s : string) :
  PyStr.lower (PyStr.lower s) = PyStr.lower s.
Proof.
  unfold PyStr.lower. rewrite PyStrFacts.map_chars_compose.
  induction s as [|c r IH]; simpl; [reflexivity|].
  now rewrite lower_char_idempotent, IH.
Qed.

Lemma preprocess_text_lower (s : string) :
  preprocess_text (PyStr.lower s) = preprocess_text s.
Proof. unfold preprocess_text. now rewrite lower_idempotent. Qed.

Lemma falsy_lower (s : string) : PyStr.falsy (PyStr.lower s) = PyStr.falsy s.
Proof. now destruct s. Qed.

(** Relevance ignores case: lowering the text and the prompt before the
    call changes no verdict. *)
Theorem is_relevant_to_prompt_ignores_case (text prompt : string)
    (threshold : Q) :
  is_relevant_to_prompt E (PyStr.lower text) (PyStr.lower prompt) threshold
  = is_relevant_to_prompt E text prompt threshold.
Proof.
  unfold is_relevant_to_prompt.
  now rewrite !falsy_lower, !preprocess_text_lower.
Qed.

Lemma partial_match_sym (p t : string) :
  partial_match p t = partial_match t p.
Proof. unfold partial_match. apply orb_comm. Qed.

Lemma partial_loops_sym (A B : gset string) :
  existsb (fun p => existsb (fun t => partial_match p t) (elements B))
          (elements A)
  = existsb (fun p => existsb (fun t => partial_match p t) (elements A))
            (elements B).
Proof.
  apply eq_true_iff_eq. rewrite !partial_loops_spec.
  split; intros (p & t & Hp & Ht & Hm); exists t, p;
    rewrite partial_match_sym; auto.
Qed.

(** The two lexical tiers do not tell the text from the prompt: when
    the statistical tier gives the same verdict both ways round, so
    does [is_relevant_to_prompt]. *)
Theorem is_relevant_to_prompt_symmetric (a b : string) (threshold : Q) :
  statistical E (preprocess_text a) (preprocess_text b) threshold
  = statistical E (preprocess_text b) (preprocess_text a) threshold ->
  is_relevant_to_prompt E a b threshold
  = is_relevant_to_prompt E b a threshold.
Proof.
  unfold is_relevant_to_prompt, statistical. intros Hstat.
  rewrite (orb_comm (PyStr.falsy a)).
  destruct (PyStr.falsy b || PyStr.falsy a); [reflexivity|].
  rewrite (orb_comm (PyStr.falsy (preprocess_text a))).
  destruct (PyStr.falsy (preprocess_text b)
            || PyStr.falsy (preprocess_text a)); [reflexivity|].
  rewrite <- Hstat.
  destruct (match tfidf_cosine E (preprocess_text b) (preprocess_text a) with
            | Some similarity => Qle_bool threshold similarity
            | None => false
            end); [reflexivity|].
  rewrite (intersection_comm_L (extract_keywords E (preprocess_text b))).
  destruct (0 <? size (extract_keywords E (preprocess_text a)
                       ∩ extract_keywords E (preprocess_text b)));
    [reflexivity|].
  apply partial_loops_sym.
Qed.

End RelevanceMore.

(* ================================================================== *)
(** ** More about the URL tests *)
(* ================================================================== *)

Section DomainTest.

Context (E : Env).

Lemma is_same_domain_netloc (a b sa sb na nb : string) :
  urlparse E a = Some (sa, na) -> urlparse E b = Some (sb, nb) ->
  is_same_domain E (Some a) b = String.eqb nb na.
Proof. unfold is_same_domain. now intros -> ->. Qed.

Lemma is_same_domain_parsed (a b : string) :
  is_same_domain E (Some a) b = true ->
  exists sa sb n, urlparse E a = Some (sa, n) /\ urlparse E b = Some (sb, n).
Proof.
  unfold is_same_domain.
  destruct (urlparse E b) as [[sb nb]|]; [|discriminate].
  destruct (urlparse E a) as [[sa na]|]; [|discriminate].
  intros ->%String.eqb_eq. now exists sa, sb, na.
Qed.

(** [is_same_domain] compares the network locations only: on the URLs
    that [urlparse] accepts it is reflexive, symmetric and transitive,
    two URLs with one network location are in the same domain whatever
    their schemes, a URL that [urlparse] rejects is in no domain, and
    without a base URL the answer is no. *)
Theorem is_same_domain_equivalence :
  (forall b s n, urlparse E b = Some (s, n) ->
                 is_same_domain E (Some b) b = true)
  /\ (forall a b, is_same_domain E (Some a) b = is_same_domain E (Some b) a)
  /\ (forall a b c,
        is_same_domain E (Some a) b = true ->
        is_same_domain E (Some b) c = true ->
        is_same_domain E (Some a) c = true)
  /\ (forall a b sa sb n,
        urlparse E a = Some (sa, n) -> urlparse E b = Some (sb, n) ->
        is_same_domain E (Some a) b = true)
  /\ (forall a b, urlparse E b = None -> is_same_domain E a b = false)
  /\ (forall u, is_same_domain E None u = false).
Proof.
  repeat split.
  - intros b s n Hb. rewrite (is_same_domain_netloc _ _ _ _ _ _ Hb Hb).
    apply String.eqb_refl.
  - intros a b. unfold is_same_domain.
    destruct (urlparse E a) as [[sa na]|], (urlparse E b) as [[sb nb]|];
      try reflexivity.
    apply String.eqb_sym.
  - intros a b c (sa & sb & n & Ha & Hb)%is_same_domain_parsed
      (sb' & sc & n' & Hb' & Hc)%is_same_domain_parsed.
    assert (n' = n) as -> by congruence.
    rewrite (is_same_domain_netloc _ _ _ _ _ _ Ha Hc).
    apply String.eqb_refl.
  - intros a b sa sb n Ha Hb.
    rewrite (is_same_domain_netloc _ _ _ _ _ _ Ha Hb).
    apply String.eqb_refl.
  - intros a b Hb. unfold is_same_domain. now rewrite Hb.
  - intros u. unfold is_same_domain. now destruct (urlparse E u) as [[]|].
Qed.

End DomainTest.

(* ================================================================== *)
(** ** More about the content loop *)
(* ================================================================== *)

Section ContentCount.

Lemma find_all_long (soup : DOM) (tag : string) :
  List.length (List.filter long_enough (find_all soup tag))
  = List.length
      (List.filter (fun e => String.eqb (fst e) tag && long_enough (snd e))
                   (dom_elements soup)).
Proof.
  unfold find_all. induction (dom_elements soup) as [|e l IH]; simpl;
    [reflexivity|].
  destruct (String.eqb (fst e) tag); simpl; [|exact IH].
  destruct (long_enough (snd e)); simpl; now rewrite IH.
Qed.

Lemma existsb_eqb_false (tag : string) (tags : list string) :
  tag ∉ tags -> existsb (String.eqb tag) tags = false.
Proof.
  intros Hnot. apply not_true_is_false. intros Hex.
  apply existsb_exists in Hex as [t [Hin Heq]].
  apply String.eqb_eq in Heq. subst t. apply Hnot.
  now apply list_elem_of_In.
Qed.

Lemma count_by_tag (elements : list (string * string)) (tags : list string) :
  NoDup tags ->
  List.length
    (flat_map
       (fun tag =>
          List.filter long_enough
            (List.map snd
               (List.filter (fun e => String.eqb (fst e) tag) elements)))
       tags)
  = List.length
      (List.filter
         (fun e => existsb (String.eqb (fst e)) tags && long_enough (snd e))
         elements).
Proof.
  intros Hnd. induction Hnd as [|tag tags Hnot Hnd IH]; simpl.
  - induction elements as [|e l IHl]; simpl; auto.
  - rewrite length_app, IH. clear IH.
    induction elements as [|e l IHl]; simpl; [reflexivity|].
    destruct (String.eqb (fst e) tag) eqn:Htag; simpl.
    + apply String.eqb_eq in Htag. rewrite Htag.
      rewrite (existsb_eqb_false tag tags Hnot). simpl.
      destruct (long_enough (snd e)); simpl; rewrite <- IHl; lia.
    + destruct (existsb (String.eqb (fst e)) tags && long_enough (snd e));
        simpl; rewrite <- IHl; lia.
Qed.

Lemma content_tags_nodup : NoDup Spec.content_tags.
Proof.
  unfold Spec.content_tags.
  repeat (apply NoDup_cons; split;
          [rewrite list_elem_of_In; simpl; intuition discriminate|]).
  constructor.
Qed.

(** The content loop loses nothing and merges nothing: the content of a
    page has exactly as many blocks as the page has elements of the
    thirteen tags with a text longer than 20 characters, and every
    block is such a text. *)
Theorem page_content_count (soup : DOM) :
  List.length (page_content soup)
  = List.length (List.filter is_content_element (dom_elements soup))
  /\ Forall (fun text => 20 < String.length text) (page_content soup).
Proof.
  rewrite page_content_spec. unfold Spec.content. split.
  - apply (count_by_tag (dom_elements soup) Spec.content_tags
             content_tags_nodup).
  - apply List.Forall_forall. intros text Hin.
    apply in_flat_map in Hin as [tag [_ Hin]].
    apply filter_In in Hin as [_ Hlong]. now apply Nat.ltb_lt.
Qed.

End ContentCount.

(* ================================================================== *)
(** ** More about the result processor *)
(* ================================================================== *)

Section ProcessorMore.

Context (E : Env).

Lemma filter_page_rescored (prompt : string) (page page' : Page.t) :
  Spec.filter_page (relevant E prompt) page = Some page' ->
  Spec.filter_page (relevant E prompt) page' = Some (rescored page').
Proof. apply filter_page_again. Qed.

Lemma omap_filter_page_again (prompt : string) (results : list Page.t) :
  omap (Spec.filter_page (relevant E prompt))
       (omap (Spec.filter_page (relevant E prompt)) results)
  = List.map rescored (omap (Spec.filter_page (relevant E prompt)) results).
Proof.
  induction results as [|page results IH]; [reflexivity|].
  cbn [omap list_omap].
  destruct (Spec.filter_page (relevant E prompt) page) as [page'|] eqn:Hpage;
    [|exact IH].
  cbn [omap list_omap List.map].
  now rewrite (filter_page_rescored _ _ _ Hpage), IH.
Qed.

Lemma process_results_prompted (results : list Page.t) (p : string) :
  p <> ""%string ->
  process_results E results (Some p)
  = omap (Spec.filter_page (relevant E p)) results.
Proof.
  intros Hp%falsy_false. unfold process_results. rewrite Hp.
  apply process_loop_spec.
Qed.

(** Running [process_results] over its own output keeps every page and
    every block, and sets every score to the block count over itself,
    that is to 1. *)
Theorem process_results_twice (results : list Page.t) (p : string) :
  p <> ""%string ->
  process_results E (process_results E results (Some p)) (Some p)
  = List.map rescored (process_results E results (Some p)).
Proof.
  intros Hp. rewrite !process_results_prompted by exact Hp.
  apply omap_filter_page_again.
Qed.

Lemma filter_length_le {A : Type} (f : A -> bool) (l : list A) :
  List.length (List.filter f l) <= List.length l.
Proof.
  induction l as [|x l IH]; simpl; [lia|].
  destruct (f x); simpl; lia.
Qed.

Lemma filter_all {A : Type} (f : A -> bool) (l : list A) :
  Forall (fun x => f x = true) (List.filter f l).
Proof.
  apply List.Forall_forall. intros x Hin. now apply filter_In in Hin.
Qed.

Lemma share_in_unit_interval (k n : nat) :
  0 < k -> k <= n ->
  (0 < Z.of_nat k # Pos.of_nat n)%Q /\ (Z.of_nat k # Pos.of_nat n <= 1)%Q.
Proof.
  intros Hk Hn. unfold Qlt, Qle. simpl.
  destruct n as [|n]; [lia|].
  rewrite Z.mul_1_r. split; [lia|].
  rewrite Z.mul_1_l.
  rewrite <- Pos.of_nat_succ, Zpos_P_of_succ_nat. lia.
Qed.

(** A page that the processor returns: its blocks are the relevant
    blocks of a page it was given, there is at least one of them, and
    its score is their share, above 0 and at most 1. *)
Lemma filter_page_sound (prompt : string) (page page' : Page.t) :
  Spec.filter_page (relevant E prompt) page = Some page' ->
  Page.content page' <> []
  /\ Forall (fun block => relevant E prompt block = true) (Page.content page')
  /\ exists q, Page.relevance_score page' = Some q
               /\ (0 < q)%Q /\ (q <= 1)%Q.
Proof.
  unfold Spec.filter_page.
  pose proof (filter_length_le (relevant E prompt) (Page.content page))
    as Hle.
  pose proof (filter_all (relevant E prompt) (Page.content page)) as Hall.
  destruct (List.filter (relevant E prompt) (Page.content page))
    as [|b kept]; [discriminate|].
  intros [= <-]. simpl Page.content. simpl Page.relevance_score.
  split; [discriminate|]. split; [exact Hall|].
  eexists. split; [reflexivity|].
  apply share_in_unit_interval; simpl in *; lia.
Qed.

Lemma processed_page_sound (results : list Page.t) (p : string)
    (page : Page.t) :
  p <> ""%string ->
  page ∈ process_results E results (Some p) ->
  Page.content page <> []
  /\ Forall (fun block => relevant E p block = true) (Page.content page)
  /\ exists q, Page.relevance_score page = Some q
               /\ (0 < q)%Q /\ (q <= 1)%Q.
Proof.
  intros Hp Hin. rewrite process_results_prompted in Hin by exact Hp.
  apply list_elem_of_omap in Hin as (original & _ & Hpage).
  apply (filter_page_sound p original page Hpage).
Qed.

(** With a prompt, every page [process_results] returns has at least
    one block, only blocks that are relevant to the prompt, and a score
    above 0 and at most 1. *)
Theorem process_results_pages (results : list Page.t) (p : string)
    (page : Page.t) :
  p <> ""%string ->
  page ∈ process_results E results (Some p) ->
  Page.content page <> []
  /\ Forall (fun block =>
               is_relevant_to_prompt E block p default_threshold = true)
            (Page.content page)
  /\ exists q, Page.relevance_score page = Some q
               /\ (0 < q)%Q /\ (q <= 1)%Q.
Proof. apply processed_page_sound. Qed.

End ProcessorMore.

(* ================================================================== *)
(** ** More about the crawl: the base URL and the scope *)
(* ================================================================== *)

Section CrawlScope.

Context (E : Env).

Lemma is_same_domain_no_base (u : string) :
  is_same_domain E None u = false.
Proof. unfold is_same_domain. now destruct (urlparse E u) as [[]|]. Qed.

Lemma follow_links_no_base
    (scrape_rec : string -> option string -> Z -> Session -> Outcome)
    (prompt : option string) (depth : Z) (links : list string)
    (data : list Page.t) (st : Session) :
  base_url st = None ->
  follow_links E scrape_rec links prompt depth data st = Some (data, st).
Proof.
  intros Hbase. induction links as [|href links IH]; cbn [follow_links];
    [reflexivity|].
  rewrite Hbase.
  destruct (normalize_url E None href) as [next_url|]; [|exact IH].
  now rewrite is_same_domain_no_base, andb_false_r.
Qed.

(** Called on a client whose base URL is not set, [extract_data]
    follows no link, whatever the depth: it returns the record of the
    page alone and leaves the session as it is (or, when the page does
    not parse, returns the empty list after the error message). *)
Theorem extract_data_without_base (html current_url : string)
    (prompt : option string) (depth : Z) (st : Session) :
  base_url st = None ->
  extract_data E html current_url prompt depth st
  = match BeautifulSoup E html with
    | Some soup => Some ([own_page current_url soup], st)
    | None => Some ([], emit ErrorExtracting st)
    end.
Proof.
  intros Hbase. unfold extract_data, extract_data_with.
  destruct (BeautifulSoup E html) as [soup|]; [|reflexivity].
  fold (own_page current_url soup).
  destruct (0 <? depth)%Z; [|reflexivity].
  now apply follow_links_no_base.
Qed.

Lemma stays_linked_refl (base : option string) (st : Session) :
  stays_linked E base st st.
Proof.
  intros Hbase. exists []. rewrite app_nil_r.
  repeat split; [|exact Hbase]. simpl. set_solver.
Qed.

Lemma stays_linked_trans (base : option string) (a b c : Session) :
  stays_linked E base a b -> stays_linked E base b c ->
  stays_linked E base a c.
Proof.
  intros Hab Hbc Hbase.
  destruct (Hab Hbase) as (l1 & Htr1 & Hin1 & Hbase1).
  destruct (Hbc Hbase1) as (l2 & Htr2 & Hin2 & Hbase2).
  exists (l1 ++ l2). repeat split; [| |exact Hbase2].
  - now rewrite Htr2, Htr1, app_assoc.
  - intros u. rewrite rendered_app, elem_of_app. intros [Hu | Hu]; auto.
Qed.

(** What a call asks for is its own page and pages of accepted links,
    and it leaves the base URL that was in force. *)
Lemma scrape_fuel_scoped (fuel : nat) :
  forall url prompt depth st results st',
    scrape_fuel E fuel url prompt depth st = Some (results, st') ->
    exists l,
      trace st' = trace st ++ l
      /\ base_url st' = base_for st url
      /\ (forall u, u ∈ rendered l ->
            normalize_url E (base_for st url) url = Some u
            \/ linked E (base_for st url) u).
Proof.
  induction fuel as [|fuel IH];
    intros url prompt depth st results st'; [discriminate|].
  intros Hrun. apply scrape_fuel_inv in Hrun.
  destruct Hrun as [Hnorm | u Hnorm Hbad | u Hnorm Hne Hvalid Hstop
                   | u Hnorm Hne Hvalid Hnew Hdepth Hget
                   | u html cur res0 st' Hnorm Hne Hvalid Hnew Hdepth Hget Hex].
  - exists [Enter url depth; Skipping None].
    rewrite trace_emit, base_url_emit, trace_enter, base_url_enter,
      <- app_assoc.
    repeat split. simpl. set_solver.
  - exists [Enter url depth; Skipping (Some u)].
    rewrite trace_emit, base_url_emit, trace_enter, base_url_enter,
      <- app_assoc.
    repeat split. simpl. set_solver.
  - exists [Enter url depth]. rewrite trace_enter, base_url_enter.
    repeat split. simpl. set_solver.
  - exists ([Enter url depth] ++
            [Scraping u; Get u ({[u]} ∪ visited_urls (enter url depth st))]
            ++ [ErrorAccessing u]).
    rewrite trace_emit, base_url_emit, base_url_mark.
    rewrite trace_mark, trace_enter, base_url_enter, <- !app_assoc.
    repeat split. simpl. intros v ->%list_elem_of_singleton. auto.
  - pose proof (normalize_url_truthy_base E st url u Hnorm) as Htruthy.
    assert (base_url (mark u (enter url depth st)) = base_for st url)
      as Hbase1 by apply base_url_enter.
    assert (stays_linked E (base_for st url)
              (mark u (enter url depth st)) st' ->
            exists l,
              trace st' = trace st ++ l
              /\ base_url st' = base_for st url
              /\ (forall v, v ∈ rendered l ->
                    normalize_url E (base_for st url) url = Some v
                    \/ linked E (base_for st url) v)) as Hrest.
    { intros Hstay. destruct (Hstay Hbase1) as (l2 & Htr & Hin & Hbase').
      exists ([Enter url depth] ++
              [Scraping u;
               Get u ({[u]} ∪ visited_urls (enter url depth st))] ++ l2).
      rewrite Htr, trace_mark, trace_enter, <- !app_assoc.
      repeat split; [exact Hbase'|].
      simpl. intros v [-> | Hv]%elem_of_cons; auto. }
    apply Hrest. clear Hrest.
    apply extract_data_with_inv in Hex.
    destruct Hex as [Hsoup | soup Hsoup Hleaf | soup res1 st' Hsoup Hpos Hloop].
    + intros Hbase. exists [ErrorExtracting].
      repeat split; [|exact Hbase]. simpl. set_solver.
    + apply stays_linked_refl.
    + revert Hloop. apply follow_links_rel.
      * apply stays_linked_refl.
      * apply stays_linked_trans.
      * intros href next_url s r s' _ _ Hnext Hne' Hsame Hcall Hbase.
        assert (base_for s next_url = base_for st url) as Hfor.
        { rewrite base_for_truthy; rewrite Hbase; [reflexivity|].
          exact Htruthy. }
        rewrite Hbase in Hsame.
        apply IH in Hcall as (l & Htr & Hbase' & Hin).
        rewrite Hfor in *. exists l. repeat split; [exact Htr| |exact Hbase'].
        intros v Hv. destruct (Hin v Hv) as [Hown | Hlinked];
          [|exact Hlinked].
        now exists next_url.
Qed.

(** [scrape] fixes the base URL once: a base URL that is set stays as
    it is through a call, links included, and a call on a client
    without one leaves the URL it was called with, as it was passed. *)
Theorem scrape_base_url (url : string) (prompt : option string) (depth : Z)
    (st : Session) (results : list Page.t) (st' : Session) :
  scrape E url prompt depth st = Some (results, st') ->
  (PyStr.falsy_opt (base_url st) = false -> base_url st' = base_url st)
  /\ (PyStr.falsy_opt (base_url st) = true -> base_url st' = Some url).
Proof.
  intros Hrun. apply scrape_fuel_scoped in Hrun as (l & _ & Hbase & _).
  rewrite Hbase. unfold base_for.
  split; intros ->; reflexivity.
Qed.


(** The visited set only grows, and by exactly the pages the call
    asked the driver for. *)
Theorem scrape_visited_urls (url : string) (prompt : option string)
    (depth : Z) (st : Session) (results : list Page.t) (st' : Session) :
  scrape E url prompt depth st = Some (results, st') ->
  visited_urls st'
  = list_to_set (rendered (new_events (trace st) (trace st')))
    ∪ visited_urls st.
Proof.
  intros Hrun. apply scrape_completes in Hrun as (l & Hadv & _).
  rewrite (advances_new_events _ _ _ Hadv).
  now destruct Hadv as (_ & Hv & _).
Qed.

Lemma base_for_again (st st' : Session) (url : string) :
  base_url st' = base_for st url -> base_for st' url = base_for st url.
Proof.
  intros Hbase. unfold base_for at 1. rewrite Hbase.
  destruct (PyStr.falsy_opt (base_for st url)) eqn:Hfalsy; [|reflexivity].
  unfold base_for in *.
  destruct (PyStr.falsy_opt (base_url st)) eqn:Hset;
    [reflexivity | congruence].
Qed.

(** A call at a budget of 0 or more leaves its own page visited when
    the URL resolves and is valid. *)
Lemma scrape_marks (url : string) (prompt : option string) (depth : Z)
    (st : Session) (results : list Page.t) (st' : Session) (u : string) :
  scrape E url prompt depth st = Some (results, st') ->
  (0 <= depth)%Z ->
  normalize_url E (base_for st url) url = Some u ->
  u <> ""%string -> is_valid_url E u = true ->
  u ∈ visited_urls st'.
Proof.
  intros Hrun Hdepth Hnorm Hne Hvalid. apply scrape_fuel_inv in Hrun.
  destruct Hrun as [Hnorm' | u' Hnorm' Hbad | u' Hnorm' _ _ Hstop
                   | u' Hnorm' _ _ _ _ _
                   | u' html cur res0 st' Hnorm' _ _ _ _ _ Hex];
    try congruence.
  - assert (u' = u) as -> by congruence. destruct Hbad; congruence.
  - assert (u' = u) as -> by congruence.
    rewrite visited_urls_enter. destruct Hstop; [assumption | lia].
  - assert (u' = u) as -> by congruence.
    change (visited_urls (emit (ErrorAccessing u)
                            (mark u (enter url depth st))))
      with (visited_urls (mark u (enter url depth st))).
    rewrite visited_urls_mark. set_solver.
  - assert (u' = u) as -> by congruence.
    apply extract_data_with_proceeds in Hex as (l & (_ & Hv & _) & _).
    rewrite Hv, visited_urls_mark. set_solver.
Qed.

(** Calling [scrape] a second time for the same URL in the same
    session, after a call at a budget of 0 or more, returns the empty
    list, asks the driver for nothing and leaves the visited set as it
    is, whatever the prompt and the budget of the second call. *)
Theorem scrape_again_empty (url : string) (prompt1 prompt2 : option string)
    (depth1 depth2 : Z) (st : Session) (results1 : list Page.t)
    (st1 : Session) :
  (0 <= depth1)%Z ->
  scrape E url prompt1 depth1 st = Some (results1, st1) ->
  exists st2,
    scrape E url prompt2 depth2 st1 = Some ([], st2)
    /\ rendered (new_events (trace st1) (trace st2)) = []
    /\ visited_urls st2 = visited_urls st1.
Proof.
  intros Hdepth Hfirst.
  pose proof Hfirst as Hbase.
  apply scrape_fuel_scoped in Hbase as (_ & _ & Hbase & _).
  apply base_for_again in Hbase.
  destruct (scrape_returns E url prompt2 depth2 st1) as (r2 & st2 & Hrun).
  exists st2. pose proof Hrun as Hcase. apply scrape_fuel_inv in Hcase.
  destruct Hcase as [Hnorm | u Hnorm Hbad | u Hnorm Hne Hvalid Hstop
                    | u Hnorm Hne Hvalid Hnew _ _
                    | u html cur res0 st2 Hnorm Hne Hvalid Hnew _ _ _];
    rewrite Hbase in Hnorm.
  - split; [exact Hrun|].
    rewrite trace_emit, trace_enter, <- app_assoc, new_events_app.
    split; [reflexivity | apply visited_urls_enter].
  - split; [exact Hrun|].
    rewrite trace_emit, trace_enter, <- app_assoc, new_events_app.
    split; [reflexivity | apply visited_urls_enter].
  - split; [exact Hrun|].
    rewrite trace_enter, new_events_app.
    split; [reflexivity | apply visited_urls_enter].
  - exfalso. apply Hnew.
    apply (scrape_marks _ _ _ _ _ _ u Hfirst Hdepth Hnorm Hne Hvalid).
  - exfalso. apply Hnew.
    apply (scrape_marks _ _ _ _ _ _ u Hfirst Hdepth Hnorm Hne Hvalid).
Qed.

End CrawlScope.

(* ================================================================== *)
(** ** More about the crawl: what the result depends on *)
(* ================================================================== *)

Section CrawlResult.

Context (E : Env).

Lemma agree_refl (st : Session) : agree st st.
Proof. now split. Qed.







Lemma follow_links_prefix
    (scrape_rec : string -> option string -> Z -> Session -> Outcome)
    (prompt : option string) (depth : Z) (links : list string) :
  forall data st results st',
    follow_links E scrape_rec links prompt depth data st
    = Some (results, st') ->
    exists more, results = data ++ more.
Proof.
  induction links as [|href links IH]; intros data st results st';
    cbn [follow_links].
  - intros [= <- _]. exists []. now rewrite app_nil_r.
  - destruct (normalize_url E (base_url st) href) as [next_url|];
      [|apply IH].
    destruct (negb (PyStr.falsy next_url)
              && is_same_domain E (base_url st) next_url); [|apply IH].
    destruct (scrape_rec next_url prompt (depth - 1)%Z st)
      as [[nested s1]|]; [|discriminate].
    intros Hrun. apply IH in Hrun as [more ->].
    exists (nested ++ more). now rewrite app_assoc.
Qed.

(** Without a prompt, a call at a budget of 0 or more on a page that
    renders and parses returns the record of that page first, before
    the records of the pages behind its links. *)
Theorem scrape_own_page_first (st : Session) (seed : string)
    (prompt : option string) (depth : Z) (u html current_url : string)
    (soup : DOM) :
  PyStr.falsy_opt prompt = true ->
  (0 <= depth)%Z ->
  normalize_url E (base_for st seed) seed = Some u ->
  u <> ""%string ->
  is_valid_url E u = true ->
  u ∉ visited_urls st ->
  driver_get E u = Some (html, current_url) ->
  BeautifulSoup E html = Some soup ->
  exists rest st',
    scrape E seed prompt depth st
    = Some (own_page current_url soup :: rest, st').
Proof.
  intros Hprompt Hdepth Hnorm Hu Hvalid Hnew Hget Hsoup.
  destruct (scrape_returns E seed prompt depth st) as (r & st' & Hrun).
  pose proof Hrun as Hcase. apply scrape_fuel_inv in Hcase.
  destruct Hcase as [Hnorm' | u' Hnorm' Hbad | u' Hnorm' _ _ Hstop
                    | u' Hnorm' _ _ _ _ Hget'
                    | u' html' cur' res0 st' Hnorm' _ _ _ _ Hget' Hex];
    try congruence.
  - assert (u' = u) as -> by congruence. destruct Hbad; congruence.
  - assert (u' = u) as -> by congruence.
    destruct Hstop; [contradiction | lia].
  - assert (u' = u) as -> by congruence.
    assert (html' = html /\ cur' = current_url) as [-> ->]
      by (split; congruence).
    rewrite filtered_no_prompt in Hrun by exact Hprompt.
    apply extract_data_with_inv in Hex.
    destruct Hex as [Hsoup' | soup' Hsoup' _ | soup' res1 st' Hsoup' _ Hloop];
      [congruence | |].
    + assert (soup' = soup) as -> by congruence.
      eexists. eexists. exact Hrun.
    + assert (soup' = soup) as -> by congruence.
      apply follow_links_prefix in Hloop as [more ->].
      eexists. eexists. exact Hrun.
Qed.

Lemma length_omap_le {A B : Type} (f : A -> option B) (l : list A) :
  List.length (omap f l) <= List.length l.
Proof.
  induction l as [|x l IH]; [reflexivity|].
  cbn [omap list_omap]. destruct (f x); simpl; lia.
Qed.

Lemma length_filtered (prompt : option string) (results : list Page.t) :
  List.length (filtered E prompt results) <= List.length results.
Proof.
  unfold filtered.
  destruct (negb (PyStr.falsy_opt prompt)); [|reflexivity].
  unfold process_results. destruct prompt as [p|]; [|reflexivity].
  destruct (PyStr.falsy p); [reflexivity|].
  rewrite process_loop_spec. apply length_omap_le.
Qed.

Lemma follow_links_pages
    (scrape_rec : string -> option string -> Z -> Session -> Outcome)
    (prompt : option string) (depth : Z) (links : list string) :
  (forall next s r s',
      scrape_rec next prompt (depth - 1)%Z s = Some (r, s') ->
      exists l, trace s' = trace s ++ l
                /\ List.length r <= List.length (rendered l)) ->
  forall data st results st',
    follow_links E scrape_rec links prompt depth data st
    = Some (results, st') ->
    exists more l,
      results = data ++ more
      /\ trace st' = trace st ++ l
      /\ List.length more <= List.length (rendered l).
Proof.
  intros Hrec. induction links as [|href links IH];
    intros data st results st'; cbn [follow_links].
  - intros [= <- <-]. exists [], []. now rewrite !app_nil_r.
  - destruct (normalize_url E (base_url st) href) as [next_url|];
      [|apply IH].
    destruct (negb (PyStr.falsy next_url)
              && is_same_domain E (base_url st) next_url); [|apply IH].
    destruct (scrape_rec next_url prompt (depth - 1)%Z st)
      as [[nested s1]|] eqn:Hcall; [|discriminate].
    intros Hrun. apply Hrec in Hcall as (l1 & Htr1 & Hlen1).
    apply IH in Hrun as (more & l2 & -> & Htr2 & Hlen2).
    exists (nested ++ more), (l1 ++ l2). repeat split.
    + now rewrite app_assoc.
    + now rewrite Htr2, Htr1, app_assoc.
    + rewrite rendered_app, !length_app. lia.
Qed.

Lemma scrape_fuel_pages (fuel : nat) :
  forall url prompt depth st results st',
    scrape_fuel E fuel url prompt depth st = Some (results, st') ->
    exists l, trace st' = trace st ++ l
              /\ List.length results <= List.length (rendered l).
Proof.
  induction fuel as [|fuel IH];
    intros url prompt depth st results st'; [discriminate|].
  intros Hrun. apply scrape_fuel_inv in Hrun.
  destruct Hrun as [Hnorm | u Hnorm Hbad | u Hnorm Hne Hvalid Hstop
                   | u Hnorm Hne Hvalid Hnew Hdepth Hget
                   | u html cur res0 st' Hnorm Hne Hvalid Hnew Hdepth Hget Hex].
  - exists [Enter url depth; Skipping None].
    rewrite trace_emit, trace_enter, <- app_assoc. split; [reflexivity|].
    simpl. lia.
  - exists [Enter url depth; Skipping (Some u)].
    rewrite trace_emit, trace_enter, <- app_assoc. split; [reflexivity|].
    simpl. lia.
  - exists [Enter url depth]. rewrite trace_enter.
    split; [reflexivity | simpl; lia].
  - exists ([Enter url depth] ++
            [Scraping u; Get u ({[u]} ∪ visited_urls (enter url depth st))]
            ++ [ErrorAccessing u]).
    rewrite trace_emit, trace_mark, trace_enter, <- !app_assoc.
    split; [reflexivity | simpl; lia].
  - pose proof (length_filtered prompt res0) as Hfiltered.
    assert (forall l2,
              trace st' = trace (mark u (enter url depth st)) ++ l2 ->
              List.length res0 <= 1 + List.length (rendered l2) ->
              exists l, trace st' = trace st ++ l
                        /\ List.length (filtered E prompt res0)
                           <= List.length (rendered l)) as Hrest.
    { intros l2 Htr Hlen.
      exists ([Enter url depth] ++
              [Scraping u;
               Get u ({[u]} ∪ visited_urls (enter url depth st))] ++ l2).
      rewrite Htr, trace_mark, trace_enter, <- !app_assoc.
      split; [reflexivity|]. simpl. lia. }
    apply extract_data_with_inv in Hex.
    destruct Hex as [Hsoup | soup Hsoup Hleaf | soup res1 st' Hsoup Hpos Hloop].
    + apply (Hrest [ErrorExtracting]); [reflexivity | simpl; lia].
    + apply (Hrest []); [now rewrite app_nil_r | simpl; lia].
    + apply (follow_links_pages _ _ _ _
               (fun next => IH next prompt (depth - 1)%Z)) in Hloop
        as (more & l2 & -> & Htr & Hlen).
      apply (Hrest l2 Htr). rewrite length_app. simpl. lia.
Qed.

(** [scrape] returns at most one record for each page it asked the
    driver for during the call. *)
Theorem scrape_pages_bounded (url : string) (prompt : option string)
    (depth : Z) (st : Session) (results : list Page.t) (st' : Session) :
  scrape E url prompt depth st = Some (results, st') ->
  List.length results
  <= List.length (rendered (new_events (trace st) (trace st'))).
Proof.
  intros Hrun. apply scrape_fuel_pages in Hrun as (l & Htr & Hlen).
  now rewrite Htr, new_events_app.
Qed.

(** With a prompt, every record [scrape] returns has at least one
    block, only blocks relevant to the prompt, and a score above 0 and
    at most 1. *)
Theorem scrape_prompted_pages (url p : string) (depth : Z) (st : Session)
    (results : list Page.t) (st' : Session) (page : Page.t) :
  p <> ""%string ->
  scrape E url (Some p) depth st = Some (results, st') ->
  page ∈ results ->
  Page.content page <> []
  /\ Forall (fun block =>
               is_relevant_to_prompt E block p default_threshold = true)
            (Page.content page)
  /\ exists q, Page.relevance_score page = Some q
               /\ (0 < q)%Q /\ (q <= 1)%Q.
Proof.
  intros Hp Hrun Hin. apply scrape_fuel_inv in Hrun.
  destruct Hrun as [Hnorm | u Hnorm Hbad | u Hnorm Hne Hvalid Hstop
                   | u Hnorm Hne Hvalid Hnew Hdepth Hget
                   | u html cur res0 st' Hnorm Hne Hvalid Hnew Hdepth Hget Hex];
    try (now apply elem_of_nil in Hin).
  unfold filtered in Hin.
  assert (negb (PyStr.falsy_opt (Some p)) = true) as Hgiven.
  { simpl. now apply negb_true_iff, falsy_false. }
  rewrite Hgiven in Hin.
  exact (processed_page_sound E res0 p page Hp Hin).
Qed.

End CrawlResult.

(* ================================================================== *)
(** ** The further statements at work on the small site *)
(* ================================================================== *)

Section MoreInstances.

Import Demo.
Local Open Scope string_scope.

Lemma site_crawl_run :
  scrape site seed None 1 init = Some (fst site_crawl, snd site_crawl).
Proof. vm_compute. reflexivity. Qed.

Lemma site_crawl_prompted_run :
  scrape site seed (Some "analytics") 1 init
  = Some (fst site_crawl_prompted, snd site_crawl_prompted).
Proof. vm_compute. reflexivity. Qed.

Lemma is_relevant_to_prompt_symmetric_witness :
  is_relevant_to_prompt site "Data analytics report" "analytics team"
    default_threshold
  = is_relevant_to_prompt site "analytics team" "Data analytics report"
      default_threshold.
Proof.
  apply (is_relevant_to_prompt_symmetric site). vm_compute. reflexivity.
Defined.

Lemma process_results_twice_witness :
  process_results site
    (process_results site [own_page about about_dom] (Some "analytics"))
    (Some "analytics")
  = List.map rescored
      (process_results site [own_page about about_dom] (Some "analytics")).
Proof. apply (process_results_twice site). discriminate. Defined.

Lemma process_results_pages_witness :
  let page :=
    Page.mk about "About" ["Our analytics team writes weekly."]
      (Some (1 # 2)) in
  Page.content page <> []
  /\ Forall (fun block =>
               is_relevant_to_prompt site block "analytics"
                 default_threshold = true)
            (Page.content page)
  /\ exists q, Page.relevance_score page = Some q
               /\ (0 < q)%Q /\ (q <= 1)%Q.
Proof.
  intros page.
  apply (process_results_pages site [own_page about about_dom] "analytics");
    [discriminate|].
  vm_compute. apply list_elem_of_here.
Defined.

Lemma extract_data_without_base_witness :
  extract_data site "<home>" seed None 3 init
  = Some ([own_page seed seed_dom], init).
Proof.
  exact (extract_data_without_base site "<home>" seed None 3 init eq_refl).
Defined.

Lemma scrape_base_url_witness : base_url (snd site_crawl) = Some seed.
Proof.
  apply (proj2 (scrape_base_url site seed None 1 init _ _ site_crawl_run)).
  reflexivity.
Defined.


Lemma scrape_visited_urls_witness :
  visited_urls (snd site_crawl)
  = list_to_set (rendered (new_events (trace init) (trace (snd site_crawl))))
    ∪ visited_urls init.
Proof.
  exact (scrape_visited_urls site seed None 1 init _ _ site_crawl_run).
Defined.

Lemma scrape_again_empty_witness :
  exists st2,
    scrape site seed (Some "analytics") 5 (snd site_crawl) = Some ([], st2)
    /\ rendered (new_events (trace (snd site_crawl)) (trace st2)) = []
    /\ visited_urls st2 = visited_urls (snd site_crawl).
Proof.
  apply (scrape_again_empty site seed None (Some "analytics") 1 5 init
           (fst site_crawl) (snd site_crawl)); [lia|].
  exact site_crawl_run.
Defined.

Lemma scrape_own_page_first_witness :
  exists rest st',
    scrape site seed None 1 init
    = Some (own_page seed seed_dom :: rest, st').
Proof.
  apply (scrape_own_page_first site init seed None 1 seed "<home>" seed
           seed_dom); try reflexivity.
  - lia.
  - discriminate.
  - apply not_elem_of_empty.
Defined.

Lemma scrape_pages_bounded_witness :
  List.length (fst site_crawl)
  <= List.length
       (rendered (new_events (trace init) (trace (snd site_crawl)))).
Proof.
  exact (scrape_pages_bounded site seed None 1 init _ _ site_crawl_run).
Defined.

Lemma scrape_prompted_pages_witness :
  let page :=
    Page.mk about "About" ["Our analytics team writes weekly."]
      (Some (1 # 1)) in
  Page.content page <> []
  /\ Forall (fun block =>
               is_relevant_to_prompt site block "analytics"
                 default_threshold = true)
            (Page.content page)
  /\ exists q, Page.relevance_score page = Some q
               /\ (0 < q)%Q /\ (q <= 1)%Q.
Proof.
  intros page.
  apply (scrape_prompted_pages site seed "analytics" 1 init _ _ page
           ltac:(discriminate) site_crawl_prompted_run).
  vm_compute. apply list_elem_of_further, list_elem_of_here.
Defined.

End MoreInstances.
